(** * Morning Crema: the brew pipeline of [app.py]

    A shallow embedding of the Streamlit script [app.py]: the URL
    identifier extractor ([extract_video_id]), the transcript retriever
    ([fetch_transcript]), the two service shims ([create_chat_completion],
    [create_tts_audio]) and the top-level script with its [brew] and
    [reset] handlers, followed by the properties proved about them.

    Python values are modelled as follows.
    - [str] is a sequence of Unicode code points ([list N]); [len] counts
      code points and the [re] module matches code points.
    - [bytes] is [list Byte.byte].
    - a [dict] used as a map is a [gmap].
    - a call that can raise returns a [result]; the script itself runs in
      the monad [M], which threads the session state, records the remote
      calls and widget outputs it performs, and stops at an exception. *)

From Stdlib Require Import NArith QArith String Ascii List Bool Lia.
From stdpp Require Import base option list gmap.

Local Open Scope N_scope.

(** ** Python strings *)

Abbreviation str := (list N).
Abbreviation bytes := (list Byte.byte).

(** The string literals of the source file are UTF-8 text; [utf8] reads
    such a literal as the [str] it denotes (one code point per encoded
    character). *)
Fixpoint utf8_decode (bs : list N) : str :=
  match bs with
  | [] => []
  | b :: r =>
      if b <? 128 then b :: utf8_decode r
      else if b <? 224 then
        match r with
        | c1 :: r1 => ((b - 192) * 64 + (c1 - 128)) :: utf8_decode r1
        | _ => []
        end
      else if b <? 240 then
        match r with
        | c1 :: c2 :: r2 =>
            ((b - 224) * 4096 + (c1 - 128) * 64 + (c2 - 128)) :: utf8_decode r2
        | _ => []
        end
      else
        match r with
        | c1 :: c2 :: c3 :: r3 =>
            ((b - 240) * 262144 + (c1 - 128) * 4096 + (c2 - 128) * 64 + (c3 - 128))
              :: utf8_decode r3
        | _ => []
        end
  end.

Definition utf8 (s : string) : str :=
  utf8_decode (map N_of_ascii (list_ascii_of_string s)).

(** [not s] for a [str]: the empty string is falsy. *)
Definition str_empty (s : str) : bool :=
  match s with [] => true | _ => false end.

(** [sep.join(parts)]. *)
Fixpoint str_join (sep : str) (parts : list str) : str :=
  match parts with
  | [] => []
  | [p] => p
  | p :: ps => p ++ sep ++ str_join sep ps
  end.

(** ** The character classes of the [re] module *)

Module Unicode.

(** [str.isalnum] on one code point, which is what [\w] consults besides
    the underscore when the pattern is a [str] pattern and no [re.ASCII]
    flag is given: the alphanumeric code points of the Unicode character
    database (version 14.0.0, the one of CPython 3.11), as inclusive
    ranges. *)
Definition alnum_ranges : list (N * N) :=
  [
    (48,57); (65,90); (97,122); (170,170); (178,179); (181,181); (185,186);
    (188,190); (192,214); (216,246); (248,705); (710,721); (736,740);
    (748,748); (750,750); (880,884); (886,887); (890,893); (895,895);
    (902,902); (904,906); (908,908); (910,929); (931,1013); (1015,1153);
    (1162,1327); (1329,1366); (1369,1369); (1376,1416); (1488,1514);
    (1519,1522); (1568,1610); (1632,1641); (1646,1647); (1649,1747);
    (1749,1749); (1765,1766); (1774,1788); (1791,1791); (1808,1808);
    (1810,1839); (1869,1957); (1969,1969); (1984,2026); (2036,2037);
    (2042,2042); (2048,2069); (2074,2074); (2084,2084); (2088,2088);
    (2112,2136); (2144,2154); (2160,2183); (2185,2190); (2208,2249);
    (2308,2361); (2365,2365); (2384,2384); (2392,2401); (2406,2415);
    (2417,2432); (2437,2444); (2447,2448); (2451,2472); (2474,2480);
    (2482,2482); (2486,2489); (2493,2493); (2510,2510); (2524,2525);
    (2527,2529); (2534,2545); (2548,2553); (2556,2556); (2565,2570);
    (2575,2576); (2579,2600); (2602,2608); (2610,2611); (2613,2614);
    (2616,2617); (2649,2652); (2654,2654); (2662,2671); (2674,2676);
    (2693,2701); (2703,2705); (2707,2728); (2730,2736); (2738,2739);
    (2741,2745); (2749,2749); (2768,2768); (2784,2785); (2790,2799);
    (2809,2809); (2821,2828); (2831,2832); (2835,2856); (2858,2864);
    (2866,2867); (2869,2873); (2877,2877); (2908,2909); (2911,2913);
    (2918,2927); (2929,2935); (2947,2947); (2949,2954); (2958,2960);
    (2962,2965); (2969,2970); (2972,2972); (2974,2975); (2979,2980);
    (2984,2986); (2990,3001); (3024,3024); (3046,3058); (3077,3084);
    (3086,3088); (3090,3112); (3114,3129); (3133,3133); (3160,3162);
    (3165,3165); (3168,3169); (3174,3183); (3192,3198); (3200,3200);
    (3205,3212); (3214,3216); (3218,3240); (3242,3251); (3253,3257);
    (3261,3261); (3293,3294); (3296,3297); (3302,3311); (3313,3314);
    (3332,3340); (3342,3344); (3346,3386); (3389,3389); (3406,3406);
    (3412,3414); (3416,3425); (3430,3448); (3450,3455); (3461,3478);
    (3482,3505); (3507,3515); (3517,3517); (3520,3526); (3558,3567);
    (3585,3632); (3634,3635); (3648,3654); (3664,3673); (3713,3714);
    (3716,3716); (3718,3722); (3724,3747); (3749,3749); (3751,3760);
    (3762,3763); (3773,3773); (3776,3780); (3782,3782); (3792,3801);
    (3804,3807); (3840,3840); (3872,3891); (3904,3911); (3913,3948);
    (3976,3980); (4096,4138); (4159,4169); (4176,4181); (4186,4189);
    (4193,4193); (4197,4198); (4206,4208); (4213,4225); (4238,4238);
    (4240,4249); (4256,4293); (4295,4295); (4301,4301); (4304,4346);
    (4348,4680); (4682,4685); (4688,4694); (4696,4696); (4698,4701);
    (4704,4744); (4746,4749); (4752,4784); (4786,4789); (4792,4798);
    (4800,4800); (4802,4805); (4808,4822); (4824,4880); (4882,4885);
    (4888,4954); (4969,4988); (4992,5007); (5024,5109); (5112,5117);
    (5121,5740); (5743,5759); (5761,5786); (5792,5866); (5870,5880);
    (5888,5905); (5919,5937); (5952,5969); (5984,5996); (5998,6000);
    (6016,6067); (6103,6103); (6108,6108); (6112,6121); (6128,6137);
    (6160,6169); (6176,6264); (6272,6276); (6279,6312); (6314,6314);
    (6320,6389); (6400,6430); (6470,6509); (6512,6516); (6528,6571);
    (6576,6601); (6608,6618); (6656,6678); (6688,6740); (6784,6793);
    (6800,6809); (6823,6823); (6917,6963); (6981,6988); (6992,7001);
    (7043,7072); (7086,7141); (7168,7203); (7232,7241); (7245,7293);
    (7296,7304); (7312,7354); (7357,7359); (7401,7404); (7406,7411);
    (7413,7414); (7418,7418); (7424,7615); (7680,7957); (7960,7965);
    (7968,8005); (8008,8013); (8016,8023); (8025,8025); (8027,8027);
    (8029,8029); (8031,8061); (8064,8116); (8118,8124); (8126,8126);
    (8130,8132); (8134,8140); (8144,8147); (8150,8155); (8160,8172);
    (8178,8180); (8182,8188); (8304,8305); (8308,8313); (8319,8329);
    (8336,8348); (8450,8450); (8455,8455); (8458,8467); (8469,8469);
    (8473,8477); (8484,8484); (8486,8486); (8488,8488); (8490,8493);
    (8495,8505); (8508,8511); (8517,8521); (8526,8526); (8528,8585);
    (9312,9371); (9450,9471); (10102,10131); (11264,11492); (11499,11502);
    (11506,11507); (11517,11517); (11520,11557); (11559,11559); (11565,11565);
    (11568,11623); (11631,11631); (11648,11670); (11680,11686); (11688,11694);
    (11696,11702); (11704,11710); (11712,11718); (11720,11726); (11728,11734);
    (11736,11742); (11823,11823); (12293,12295); (12321,12329); (12337,12341);
    (12344,12348); (12353,12438); (12445,12447); (12449,12538); (12540,12543);
    (12549,12591); (12593,12686); (12690,12693); (12704,12735); (12784,12799);
    (12832,12841); (12872,12879); (12881,12895); (12928,12937); (12977,12991);
    (13312,19903); (19968,42124); (42192,42237); (42240,42508); (42512,42539);
    (42560,42606); (42623,42653); (42656,42735); (42775,42783); (42786,42888);
    (42891,42954); (42960,42961); (42963,42963); (42965,42969); (42994,43009);
    (43011,43013); (43015,43018); (43020,43042); (43056,43061); (43072,43123);
    (43138,43187); (43216,43225); (43250,43255); (43259,43259); (43261,43262);
    (43264,43301); (43312,43334); (43360,43388); (43396,43442); (43471,43481);
    (43488,43492); (43494,43518); (43520,43560); (43584,43586); (43588,43595);
    (43600,43609); (43616,43638); (43642,43642); (43646,43695); (43697,43697);
    (43701,43702); (43705,43709); (43712,43712); (43714,43714); (43739,43741);
    (43744,43754); (43762,43764); (43777,43782); (43785,43790); (43793,43798);
    (43808,43814); (43816,43822); (43824,43866); (43868,43881); (43888,44002);
    (44016,44025); (44032,55203); (55216,55238); (55243,55291); (63744,64109);
    (64112,64217); (64256,64262); (64275,64279); (64285,64285); (64287,64296);
    (64298,64310); (64312,64316); (64318,64318); (64320,64321); (64323,64324);
    (64326,64433); (64467,64829); (64848,64911); (64914,64967); (65008,65019);
    (65136,65140); (65142,65276); (65296,65305); (65313,65338); (65345,65370);
    (65382,65470); (65474,65479); (65482,65487); (65490,65495); (65498,65500);
    (65536,65547); (65549,65574); (65576,65594); (65596,65597); (65599,65613);
    (65616,65629); (65664,65786); (65799,65843); (65856,65912); (65930,65931);
    (66176,66204); (66208,66256); (66273,66299); (66304,66339); (66349,66378);
    (66384,66421); (66432,66461); (66464,66499); (66504,66511); (66513,66517);
    (66560,66717); (66720,66729); (66736,66771); (66776,66811); (66816,66855);
    (66864,66915); (66928,66938); (66940,66954); (66956,66962); (66964,66965);
    (66967,66977); (66979,66993); (66995,67001); (67003,67004); (67072,67382);
    (67392,67413); (67424,67431); (67456,67461); (67463,67504); (67506,67514);
    (67584,67589); (67592,67592); (67594,67637); (67639,67640); (67644,67644);
    (67647,67669); (67672,67702); (67705,67742); (67751,67759); (67808,67826);
    (67828,67829); (67835,67867); (67872,67897); (67968,68023); (68028,68047);
    (68050,68096); (68112,68115); (68117,68119); (68121,68149); (68160,68168);
    (68192,68222); (68224,68255); (68288,68295); (68297,68324); (68331,68335);
    (68352,68405); (68416,68437); (68440,68466); (68472,68497); (68521,68527);
    (68608,68680); (68736,68786); (68800,68850); (68858,68899); (68912,68921);
    (69216,69246); (69248,69289); (69296,69297); (69376,69415); (69424,69445);
    (69457,69460); (69488,69505); (69552,69579); (69600,69622); (69635,69687);
    (69714,69743); (69745,69746); (69749,69749); (69763,69807); (69840,69864);
    (69872,69881); (69891,69926); (69942,69951); (69956,69956); (69959,69959);
    (69968,70002); (70006,70006); (70019,70066); (70081,70084); (70096,70106);
    (70108,70108); (70113,70132); (70144,70161); (70163,70187); (70272,70278);
    (70280,70280); (70282,70285); (70287,70301); (70303,70312); (70320,70366);
    (70384,70393); (70405,70412); (70415,70416); (70419,70440); (70442,70448);
    (70450,70451); (70453,70457); (70461,70461); (70480,70480); (70493,70497);
    (70656,70708); (70727,70730); (70736,70745); (70751,70753); (70784,70831);
    (70852,70853); (70855,70855); (70864,70873); (71040,71086); (71128,71131);
    (71168,71215); (71236,71236); (71248,71257); (71296,71338); (71352,71352);
    (71360,71369); (71424,71450); (71472,71483); (71488,71494); (71680,71723);
    (71840,71922); (71935,71942); (71945,71945); (71948,71955); (71957,71958);
    (71960,71983); (71999,71999); (72001,72001); (72016,72025); (72096,72103);
    (72106,72144); (72161,72161); (72163,72163); (72192,72192); (72203,72242);
    (72250,72250); (72272,72272); (72284,72329); (72349,72349); (72368,72440);
    (72704,72712); (72714,72750); (72768,72768); (72784,72812); (72818,72847);
    (72960,72966); (72968,72969); (72971,73008); (73030,73030); (73040,73049);
    (73056,73061); (73063,73064); (73066,73097); (73112,73112); (73120,73129);
    (73440,73458); (73648,73648); (73664,73684); (73728,74649); (74752,74862);
    (74880,75075); (77712,77808); (77824,78894); (82944,83526); (92160,92728);
    (92736,92766); (92768,92777); (92784,92862); (92864,92873); (92880,92909);
    (92928,92975); (92992,92995); (93008,93017); (93019,93025); (93027,93047);
    (93053,93071); (93760,93846); (93952,94026); (94032,94032); (94099,94111);
    (94176,94177); (94179,94179); (94208,100343); (100352,101589);
    (101632,101640); (110576,110579); (110581,110587); (110589,110590);
    (110592,110882); (110928,110930); (110948,110951); (110960,111355);
    (113664,113770); (113776,113788); (113792,113800); (113808,113817);
    (119520,119539); (119648,119672); (119808,119892); (119894,119964);
    (119966,119967); (119970,119970); (119973,119974); (119977,119980);
    (119982,119993); (119995,119995); (119997,120003); (120005,120069);
    (120071,120074); (120077,120084); (120086,120092); (120094,120121);
    (120123,120126); (120128,120132); (120134,120134); (120138,120144);
    (120146,120485); (120488,120512); (120514,120538); (120540,120570);
    (120572,120596); (120598,120628); (120630,120654); (120656,120686);
    (120688,120712); (120714,120744); (120746,120770); (120772,120779);
    (120782,120831); (122624,122654); (123136,123180); (123191,123197);
    (123200,123209); (123214,123214); (123536,123565); (123584,123627);
    (123632,123641); (124896,124902); (124904,124907); (124909,124910);
    (124912,124926); (124928,125124); (125127,125135); (125184,125251);
    (125259,125259); (125264,125273); (126065,126123); (126125,126127);
    (126129,126132); (126209,126253); (126255,126269); (126464,126467);
    (126469,126495); (126497,126498); (126500,126500); (126503,126503);
    (126505,126514); (126516,126519); (126521,126521); (126523,126523);
    (126530,126530); (126535,126535); (126537,126537); (126539,126539);
    (126541,126543); (126545,126546); (126548,126548); (126551,126551);
    (126553,126553); (126555,126555); (126557,126557); (126559,126559);
    (126561,126562); (126564,126564); (126567,126570); (126572,126578);
    (126580,126583); (126585,126588); (126590,126590); (126592,126601);
    (126603,126619); (126625,126627); (126629,126633); (126635,126651);
    (127232,127244); (130032,130041); (131072,173791); (173824,177976);
    (177984,178205); (178208,183969); (183984,191456); (194560,195101);
    (196608,201546)
  ].

Definition in_range (c : N) (r : N * N) : bool :=
  (fst r <=? c) && (c <=? snd r).

Definition isalnum (c : N) : bool := existsb (in_range c) alnum_ranges.

End Unicode.

(** [\w]: a Unicode alphanumeric or the underscore. *)
Definition is_word (c : N) : bool := Unicode.isalnum c || (c =? 95).

(** The set [[\w-]]. *)
Definition is_word_or_dash (c : N) : bool := is_word c || (c =? 45).

(** The ASCII class [[A-Za-z0-9_-]] (the URL-safe characters of a YouTube
    identifier). *)
Definition is_urlsafe (c : N) : bool :=
  ((48 <=? c) && (c <=? 57)) || ((65 <=? c) && (c <=? 90))
  || ((97 <=? c) && (c <=? 122)) || (c =? 95) || (c =? 45).

Definition is_ascii (c : N) : bool := c <? 128.

(** ** The fragment of regular expressions the patterns use

    The empty pattern, literal characters (the escaped dot of [youtu\.be]
    is the literal dot), the set [[\w-]], a counted repetition [r{n}], a
    capturing group and concatenation.  No construct of the fragment can match in two
    ways, so matching at a position is a function. *)
Inductive regex : Type :=
| Empty
| Lit (c : N)
| WordOrDash
| Repeat (r : regex) (n : nat)
| Group (r : regex)
| Cat (r1 r2 : regex).

(** A match object: where it starts, the text matched and group 1
    ([None] when the group took no part in the match). *)
Record Match : Type := mkMatch {
  m_start : nat;
  m_group0 : str;
  m_group1 : option str
}.

Definition match_char (p : N -> bool) (s : str) : option (str * option str) :=
  match s with
  | x :: s' => if p x then Some (s', None) else None
  | [] => None
  end.

Definition consumed (s rest : str) : str :=
  take (length s - length rest)%nat s.

(** [match_re r s]: match [r] at the start of [s]; the result is the
    unmatched rest of [s] and the text of group 1. *)
Fixpoint match_re (r : regex) (s : str) : option (str * option str) :=
  match r with
  | Empty => Some (s, None)
  | Lit c => match_char (N.eqb c) s
  | WordOrDash => match_char is_word_or_dash s
  | Repeat r' n =>
      (fix rep (k : nat) (s : str) : option (str * option str) :=
         match k with
         | O => Some (s, None)
         | S k' =>
             match match_re r' s with
             | Some (s', _) => rep k' s'
             | None => None
             end
         end) n s
  | Group r' =>
      match match_re r' s with
      | Some (s', _) => Some (s', Some (consumed s s'))
      | None => None
      end
  | Cat r1 r2 =>
      match match_re r1 s with
      | Some (s1, g1) =>
          match match_re r2 s1 with
          | Some (s2, g2) =>
              Some (s2, match g2 with Some _ => g2 | None => g1 end)
          | None => None
          end
      | None => None
      end
  end.

(** [re.search(r, s)]: the match at the leftmost position where [r]
    matches; every position from 0 to [len(s)] is tried. *)
Fixpoint search_from (i : nat) (r : regex) (s : str) : option Match :=
  match match_re r s with
  | Some (rest, g) => Some (mkMatch i (consumed s rest) g)
  | None =>
      match s with
      | [] => None
      | _ :: s' => search_from (S i) r s'
      end
  end.

Definition re_search (r : regex) (s : str) : option Match := search_from 0 r s.

(** The regular expression of a literal text. *)
Fixpoint literal (l : str) : regex :=
  match l with
  | [] => Empty
  | c :: l' => Cat (Lit c) (literal l')
  end.

(** [lit([\w-]{11})]. *)
Definition id_pattern (lit : str) : regex :=
  Cat (literal lit) (Group (Repeat WordOrDash 11)).

(** ** [extract_video_id] *)

(** The texts that precede the identifier in the three patterns. *)
Definition lit_v : str := utf8 "v=".
Definition lit_youtu_be : str := utf8 "youtu.be/".
Definition lit_shorts : str := utf8 "shorts/".

(** The list [patterns] of lines 46 to 50: [v=([\w-]{11})],
    [youtu\.be/([\w-]{11})] and [shorts/([\w-]{11})]. *)
Definition patterns : list regex :=
  [ id_pattern lit_v;
    id_pattern lit_youtu_be;
    id_pattern lit_shorts ].

(** The [for] loop of [extract_video_id]: the first pattern that matches
    somewhere returns its group 1. *)
Fixpoint first_group (ps : list regex) (url : str) : option str :=
  match ps with
  | [] => None
  | pattern :: ps' =>
      match re_search pattern url with
      | Some m => m_group1 m
      | None => first_group ps' url
      end
  end.

Definition extract_video_id (url : str) : option str := first_group patterns url.

(** ** Shapes of a URL *)

(** An identifier token as the patterns capture it: 11 characters of
    [[\w-]]. *)
Definition is_token (X : str) : bool :=
  Nat.eqb (length X) 11 && forallb is_word_or_dash X.

(** [url] holds the shape [lit X] right after the prefix [pre]. *)
Definition shape_at (lit url pre X : str) : Prop :=
  exists post, url = pre ++ lit ++ X ++ post /\ is_token X = true.

Definition has_shape (lit url : str) : Prop :=
  exists pre X, shape_at lit url pre X.

(** [X] is the token of the leftmost occurrence of the shape in [url]. *)
Definition leftmost (lit url X : str) : Prop :=
  exists pre, shape_at lit url pre X /\
    forall pre' X', shape_at lit url pre' X' -> (length pre <= length pre')%nat.

(** Which occurrence [extract_video_id] picks.

    The notions the statements about [extract_video_id] are phrased in:
    the occurrence of a shape at the prefix [pre] is the first one of its
    shape, and no pattern tried before it matches. *)
Definition first_occurrence (lit url pre : str) : Prop :=
  forall pre' X', shape_at lit url pre' X' -> (length pre <= length pre')%nat.

Definition no_earlier_pattern (lit url : str) : Prop :=
  lit = lit_v
  \/ (lit = lit_youtu_be /\ ~ has_shape lit_v url)
  \/ (lit = lit_shorts /\ ~ has_shape lit_v url /\ ~ has_shape lit_youtu_be url).

Definition chosen (url lit pre X : str) : Prop :=
  shape_at lit url pre X /\ first_occurrence lit url pre /\ no_earlier_pattern lit url.

(** A token of the documented identifier class [[A-Za-z0-9_-]{11}]. *)
Definition is_urlsafe_token (X : str) : bool :=
  Nat.eqb (length X) 11 && forallb is_urlsafe X.

(** [s] has [n] consecutive characters of the class [p] somewhere. *)
Fixpoint has_run (p : N -> bool) (n : nat) (s : str) : bool :=
  (Nat.eqb (length (take n s)) n && forallb p (take n s))
  || match s with
     | [] => false
     | _ :: s' => has_run p n s'
     end.

(** ** Exceptions and results

    The exceptions the script tells apart are the three it imports from
    [youtube_transcript_api]; every other subclass of [Exception] is an
    [OtherException]. *)
Inductive exn : Type :=
| VideoUnavailable (video_id : str)
| TranscriptsDisabled (video_id : str)
| NoTranscriptFound (video_id : str) (requested_language_codes : list str)
| OtherException (text : str).

(** The outcome of a call that can raise. *)
Inductive result (A : Type) : Type :=
| Ok (a : A)
| Raise (e : exn).
Arguments Ok {A} a.
Arguments Raise {A} e.

(** ** The transcript library

    [youtube_transcript_api] is a dependency of the script, not part of
    it.  Its [TranscriptList] keeps two dictionaries from language code to
    transcript, one of the manually created and one of the generated
    transcripts, and answers the three lookups below from them; the
    documentation of [find_transcript] reads: manually created transcripts
    are returned first and only if none are found, generated transcripts
    are used. *)

(** One element of the list [Transcript.fetch] returns: a dictionary with
    the keys [text], [start] and [duration].  The two times are numbers
    the script never reads; they are kept as rationals. *)
Record Item : Type := mkItem {
  item_text : str;
  item_start : Q;
  item_duration : Q
}.

Record Transcript : Type := mkTranscript {
  language_code : str;
  is_generated : bool;
  (** what the remote call [fetch()] answers for this track *)
  fetch : result (list Item)
}.

Record TranscriptList : Type := mkTranscriptList {
  tl_video_id : str;
  manually_created_transcripts : gmap str Transcript;
  generated_transcripts : gmap str Transcript
}.

(** The inner loop of the library's lookup: the first dictionary that has
    the language code. *)
Fixpoint lookup_dicts (language_code : str)
    (transcript_dicts : list (gmap str Transcript)) : option Transcript :=
  match transcript_dicts with
  | [] => None
  | transcript_dict :: rest =>
      match transcript_dict !! language_code with
      | Some t => Some t
      | None => lookup_dicts language_code rest
      end
  end.

(** The outer loop: the language codes in the order given. *)
Fixpoint find_in_dicts (language_codes : list str)
    (transcript_dicts : list (gmap str Transcript)) : option Transcript :=
  match language_codes with
  | [] => None
  | language_code :: rest =>
      match lookup_dicts language_code transcript_dicts with
      | Some t => Some t
      | None => find_in_dicts rest transcript_dicts
      end
  end.

Definition find_with (tl : TranscriptList) (language_codes : list str)
    (transcript_dicts : list (gmap str Transcript)) : result Transcript :=
  match find_in_dicts language_codes transcript_dicts with
  | Some t => Ok t
  | None => Raise (NoTranscriptFound (tl_video_id tl) language_codes)
  end.

Definition find_transcript (tl : TranscriptList) (language_codes : list str)
    : result Transcript :=
  find_with tl language_codes
    [manually_created_transcripts tl; generated_transcripts tl].

Definition find_generated_transcript (tl : TranscriptList)
    (language_codes : list str) : result Transcript :=
  find_with tl language_codes [generated_transcripts tl].

(** The lookup among the manually created transcripts only; the script
    does not call it. *)
Definition find_manually_created_transcript (tl : TranscriptList)
    (language_codes : list str) : result Transcript :=
  find_with tl language_codes [manually_created_transcripts tl].

(** ** Values of the speech service

    What [create_tts_audio] can hold in [audio_response] and return:
    [None], a [bytes] value, or an object that may expose a [read] method
    (with the outcome of calling it) and may expose a [content]
    attribute. *)
#[local] Unset Elimination Schemes.
Inductive pyobj : Type :=
| PyNone
| PyBytes (b : bytes)
| PyObject (attr_read : option (result pyobj)) (attr_content : option pyobj).
#[local] Set Elimination Schemes.

(** Truth value of a [pyobj] in an [if]. *)
Definition truthy (o : pyobj) : bool :=
  match o with
  | PyNone => false
  | PyBytes [] => false
  | PyBytes (_ :: _) => true
  | PyObject _ _ => true
  end.

(** ** The remote services *)

Record ChatRequest : Type := mkChatRequest {
  chat_api_key : option str;
  chat_model : str;
  chat_system : str;
  chat_user : str;
  chat_temperature : Q
}.

Record SpeechRequest : Type := mkSpeechRequest {
  speech_api_key : option str;
  speech_model : str;
  speech_voice : str;
  speech_speed : Q;
  speech_input : option str
}.

(** Everything outside the script: the transcript service, the two
    revisions of the [openai] client ([has_ChatCompletion] is
    [hasattr(openai, "ChatCompletion")], [has_audio_speech] is the test of
    line 98), and how an exception prints.  A chat call answers the
    [content] of the first choice, which may be [None].  [OpenAI] is the
    constructor [openai.OpenAI(api_key=...)] of lines 85 and 106: the
    client is built, or the constructor raises (the older revision has no
    such class, the newer one refuses a missing key). *)
Record World : Type := mkWorld {
  list_transcripts : str -> result TranscriptList;
  has_ChatCompletion : bool;
  ChatCompletion_create : ChatRequest -> result (option str);
  OpenAI : option str -> result unit;
  client_chat_completions_create : ChatRequest -> result (option str);
  has_audio_speech : bool;
  audio_speech_create : SpeechRequest -> result pyobj;
  client_audio_speech_create : SpeechRequest -> result pyobj;
  exc_str : exn -> str
}.

(** ** State, events and the script monad *)

(** [st.session_state] once lines 37 to 42 have run. *)
Record SessionState : Type := mkSession {
  script : option str;
  audio : pyobj;
  video_url : str
}.

(** The session state together with the module global [openai.api_key]. *)
Record State : Type := mkState {
  session_state : SessionState;
  openai_api_key : option str
}.

(** A session no run has written to (lines 37 to 42). *)
Definition fresh_session : SessionState :=
  {| script := None; audio := PyNone; video_url := [] |}.

(** What a run does that can be observed from outside: calls to the remote
    services and widget output.  Headers, captions and spinners are left
    out. *)
Inductive event : Type :=
| CallListTranscripts (video_id : str)
| CallFetch (t : Transcript)
| CallChat (legacy : bool) (req : ChatRequest)
| CallSpeech (module_level : bool) (req : SpeechRequest)
| StError (msg : str)
| StWrite (s : str)
| StAudio (a : pyobj)
| StRerun.

Definition is_remote (ev : event) : bool :=
  match ev with
  | CallListTranscripts _ | CallFetch _ | CallChat _ _ | CallSpeech _ _ => true
  | _ => false
  end.

(** How a piece of the script ends: with a value, with an exception, or
    by [st.rerun()], which stops the run. *)
Inductive outcome (A : Type) : Type :=
| Return (a : A)
| Raised (e : exn)
| Rerun.
Arguments Return {A} a.
Arguments Raised {A} e.
Arguments Rerun {A}.

Definition M (A : Type) : Type := State -> State * list event * outcome A.

Definition ret {A : Type} (a : A) : M A := fun st => (st, [], Return a).

Definition bind {A B : Type} (m : M A) (f : A -> M B) : M B := fun st =>
  match m st with
  | (st1, tr1, Return a) =>
      match f a st1 with
      | (st2, tr2, o) => (st2, tr1 ++ tr2, o)
      end
  | (st1, tr1, Raised e) => (st1, tr1, Raised e)
  | (st1, tr1, Rerun) => (st1, tr1, Rerun)
  end.

Notation "x <- m ;; k" := (bind m (fun x => k))
  (at level 100, m at next level, right associativity).
Notation "m ;;; k" := (bind m (fun _ => k))
  (at level 100, right associativity).

Definition raise {A : Type} (e : exn) : M A := fun st => (st, [], Raised e).

Definition emit (ev : event) : M unit := fun st => (st, [ev], Return tt).

Definition lift {A : Type} (r : result A) : M A :=
  match r with
  | Ok a => ret a
  | Raise e => raise e
  end.

(** A remote call: it is recorded, then it answers or raises. *)
Definition call {A : Type} (ev : event) (r : result A) : M A :=
  emit ev ;;; lift r.

Definition gets {A : Type} (f : State -> A) : M A := fun st => (st, [], Return (f st)).

Definition modify (f : State -> State) : M unit := fun st => (f st, [], Return tt).

(** [try: body except ...: handler]; [handler e] is [None] when no
    [except] clause takes [e]. *)
Definition try_except {A : Type} (body : M A) (handler : exn -> option (M A))
    : M A := fun st =>
  match body st with
  | (st1, tr1, Raised e) =>
      match handler e with
      | Some h =>
          match h st1 with
          | (st2, tr2, o) => (st2, tr1 ++ tr2, o)
          end
      | None => (st1, tr1, Raised e)
      end
  | r => r
  end.

Definition set_script (v : option str) : M unit :=
  modify (fun st =>
    {| session_state :=
         {| script := v;
            audio := audio (session_state st);
            video_url := video_url (session_state st) |};
       openai_api_key := openai_api_key st |}).

Definition set_audio (v : pyobj) : M unit :=
  modify (fun st =>
    {| session_state :=
         {| script := script (session_state st);
            audio := v;
            video_url := video_url (session_state st) |};
       openai_api_key := openai_api_key st |}).

Definition set_video_url (v : str) : M unit :=
  modify (fun st =>
    {| session_state :=
         {| script := script (session_state st);
            audio := audio (session_state st);
            video_url := v |};
       openai_api_key := openai_api_key st |}).

Definition set_openai_api_key (v : str) : M unit :=
  modify (fun st =>
    {| session_state := session_state st; openai_api_key := Some v |}).

(** ** The pipeline stages *)

(** Lines 13 to 29; the double quotes inside the text are the code point
    34 between the pieces. *)
Definition SYSTEM_PROMPT : str :=
  str_join [34]
    [
      utf8 "
You are Lim Hyun-woo (임현우), a professional journalist from Korea Economic Daily (Hankyung) hosting the morning show ";
      utf8 "Morning Routine";
      utf8 ".

**Brand Identity:**
- Start the opening with: ";
      utf8 "네, 오늘 아침, 뇌를 깨우는 정보의 첫 거품, **모닝 크레마(Morning Crema)** 브리핑 시작하겠습니다.";
      utf8 "

**Tone & Manner:**
- Professional, trustworthy, yet friendly (News Anchor style).
- Use clean sentence endings (~했습니다, ~입니다) mixed with softer ones (~하거든요, ~로 보입니다).
- Use your signature conjunctions frequently: ";
      utf8 "**자,** 다음 내용입니다";
      utf8 ", ";
      utf8 "**자,** 정리해 보겠습니다";
      utf8 ".
- Explain complex economic/tech terms simply for the audience.
- Ends with: ";
      utf8 "이상, 오늘의 가장 신선한 모닝 크레마였습니다.";
      utf8 "

**Task:**
- Summarize the provided YouTube transcript into a 3-minute read-aloud script.
- Focus on the ";
      utf8 "Key Insights";
      utf8 " (The Crema) rather than just listing facts.
"
    ].

Definition preferred_languages : list str :=
  [utf8 "ko"; utf8 "en"; utf8 "en-US"; utf8 "en-GB"].

Definition generated_languages : list str :=
  [utf8 "en"; utf8 "en-US"; utf8 "en-GB"].

(** The [try]/[except NoTranscriptFound] of lines 60 to 63. *)
Definition select_transcript (transcript_list : TranscriptList) : M Transcript :=
  try_except
    (lift (find_transcript transcript_list preferred_languages))
    (fun e =>
       match e with
       | NoTranscriptFound _ _ =>
           Some (lift (find_generated_transcript transcript_list generated_languages))
       | _ => None
       end).

Definition fetch_transcript (w : World) (video_id : str) : M str :=
  transcript_list <- call (CallListTranscripts video_id) (list_transcripts w video_id) ;;
  transcript <- select_transcript transcript_list ;;
  parts <- call (CallFetch transcript) (fetch transcript) ;;
  ret (str_join (utf8 " ") (map item_text parts)).

Definition user_prompt (transcript_text : str) : str :=
  utf8 "If the transcript is in English, translate and interpret it into Korean. "
  ++ utf8 "Summarize and craft the Morning Crema script based on the transcript below:"
  ++ [10; 10] ++ transcript_text.

Definition chat_request (key : option str) (transcript_text : str) : ChatRequest :=
  {| chat_api_key := key;
     chat_model := utf8 "gpt-4o";
     chat_system := SYSTEM_PROMPT;
     chat_user := user_prompt transcript_text;
     chat_temperature := (4 # 10)%Q |}.

Definition create_chat_completion (w : World) (transcript_text : str)
    : M (option str) :=
  key <- gets openai_api_key ;;
  let req := chat_request key transcript_text in
  if has_ChatCompletion w then
    call (CallChat true req) (ChatCompletion_create w req)
  else
    (lift (OpenAI w key) ;;;
     call (CallChat false req) (client_chat_completions_create w req)).

Definition speech_request (key : option str) (script : option str) : SpeechRequest :=
  {| speech_api_key := key;
     speech_model := utf8 "tts-1-hd";
     speech_voice := utf8 "onyx";
     speech_speed := (11 # 10)%Q;
     speech_input := script |}.

(** Lines 113 to 117: [read] is looked for before [content]; the call
    [audio_response.read()] answers or raises. *)
Definition normalize_audio (audio_response : pyobj) : result pyobj :=
  match audio_response with
  | PyObject (Some r) _ => r
  | PyObject None (Some c) => Ok c
  | _ => Ok audio_response
  end.

Definition create_tts_audio (w : World) (script : option str) : M pyobj :=
  key <- gets openai_api_key ;;
  let req := speech_request key script in
  audio_response <-
    (if has_audio_speech w then
       call (CallSpeech true req) (audio_speech_create w req)
     else
       (lift (OpenAI w key) ;;;
        call (CallSpeech false req) (client_audio_speech_create w req))) ;;
  lift (normalize_audio audio_response).

(** ** The script *)

Definition msg_need_key : str :=
  utf8 "OPENAI_API_KEY가 필요합니다. 사이드바에 입력해 주세요.".

Definition msg_need_url : str := utf8 "YouTube URL을 입력해 주세요.".

Definition msg_invalid_url : str := utf8 "유효한 YouTube URL을 입력해 주세요.".

Definition msg_transcript (w : World) (exc : exn) : str :=
  utf8 "자막을 찾을 수 없습니다. 다른 영상으로 시도해 주세요. ("
  ++ exc_str w exc ++ utf8 ")".

Definition msg_generic (w : World) (exc : exn) : str :=
  utf8 "문제가 발생했습니다: " ++ exc_str w exc.

(** The tuple of the first [except] clause (line 161). *)
Definition is_transcript_error (exc : exn) : bool :=
  match exc with
  | VideoUnavailable _ | TranscriptsDisabled _ | NoTranscriptFound _ _ => true
  | OtherException _ => false
  end.

(** Lines 155 to 160, the body of the [try]. *)
Definition pipeline (w : World) (video_id : str) : M unit :=
  transcript_text <- fetch_transcript w video_id ;;
  s <- create_chat_completion w transcript_text ;;
  set_script s ;;;
  current <- gets (fun st => script (session_state st)) ;;
  a <- create_tts_audio w current ;;
  set_audio a.

(** Lines 161 to 164; [except Exception] takes whatever the first clause
    leaves. *)
Definition on_error (w : World) (exc : exn) : option (M unit) :=
  if is_transcript_error exc then Some (emit (StError (msg_transcript w exc)))
  else Some (emit (StError (msg_generic w exc))).

(** Lines 143 to 164, with [brew] pressed. *)
Definition brew_block (w : World) (api_key url : str) : M unit :=
  if str_empty api_key then emit (StError msg_need_key)
  else if str_empty url then emit (StError msg_need_url)
  else
    set_openai_api_key api_key ;;;
    match extract_video_id url with
    | None | Some [] => emit (StError msg_invalid_url)
    | Some video_id => try_except (pipeline w video_id) (on_error w)
    end.

(** Lines 131 to 135. *)
Definition reset_block : M unit :=
  set_script None ;;;
  set_audio PyNone ;;;
  set_video_url [] ;;;
  fun st => (st, [StRerun], Rerun).

(** The exception of [st.audio] for data it cannot play. *)
Definition invalid_audio_format : exn :=
  OtherException (utf8 "Invalid binary data format").

(** [st.audio(data, format=...)] of line 172: a [bytes] value is played;
    for a value of any other type here, a response object of the speech
    service, [st.audio] raises [RuntimeError]. *)
Definition st_audio (a : pyobj) : M unit :=
  match a with
  | PyBytes _ => emit (StAudio a)
  | _ => raise invalid_audio_format
  end.

(** Lines 166 to 172; they are outside the [try]. *)
Definition display : M unit :=
  s <- gets (fun st => script (session_state st)) ;;
  (match s with
   | Some (c :: t) => emit (StWrite (c :: t))
   | _ => ret tt
   end) ;;;
  a <- gets (fun st => audio (session_state st)) ;;
  if truthy a then st_audio a else ret tt.

(** What the user did before a run: the key in the sidebar, the text in
    the URL box and the button pressed, if any. *)
Record Inputs : Type := mkInputs {
  api_key : str;
  typed_url : str;
  brew : bool;
  reset : bool
}.

(** One run of the script.  The URL box is a widget with the key
    [video_url]: the text typed into it is in the session state under
    that key when the run starts, and [st.text_input] answers the value
    stored there. *)
Definition app_run (w : World) (inp : Inputs) : M unit :=
  set_video_url (typed_url inp) ;;;
  (if reset inp then reset_block else ret tt) ;;;
  url <- gets (fun st => video_url (session_state st)) ;;
  (if brew inp then brew_block w (api_key inp) url else ret tt) ;;;
  display.

(** The inputs of the run that [st.rerun()] starts: no button is pressed
    and the URL box shows what the session state holds. *)
Definition rerun_inputs (inp : Inputs) (st : State) : Inputs :=
  {| api_key := api_key inp;
     typed_url := video_url (session_state st);
     brew := false;
     reset := false |}.

(** A user action: one run and, when it asked for one, the rerun. *)
Definition interact (w : World) (inp : Inputs) (st : State)
    : State * list event * outcome unit :=
  match app_run w inp st with
  | (st1, tr1, Rerun) =>
      match app_run w (rerun_inputs inp st1) st1 with
      | (st2, tr2, o) => (st2, tr1 ++ tr2, o)
      end
  | r => r
  end.

(** ** Notions used in the statements *)

(** The remote calls among the events of a run. *)
Definition remote_calls (tr : list event) : list event :=
  List.filter is_remote tr.

(** The calls of the transcript stage. *)
Definition is_transcript_call (ev : event) : bool :=
  match ev with
  | CallListTranscripts _ | CallFetch _ => true
  | _ => false
  end.

(** What the service behind [create_chat_completion] answers: the client
    revision in use is the one the script detects; with the newer one the
    client has to be built first, and the exception of its constructor is
    the answer when it cannot be. *)
Definition chat_answer (w : World) (key : option str) (transcript_text : str)
    : result (option str) :=
  if has_ChatCompletion w then ChatCompletion_create w (chat_request key transcript_text)
  else
    match OpenAI w key with
    | Ok _ => client_chat_completions_create w (chat_request key transcript_text)
    | Raise e => Raise e
    end.

Definition chat_call (w : World) (key : option str) (transcript_text : str) : event :=
  CallChat (has_ChatCompletion w) (chat_request key transcript_text).

(** The calls [create_chat_completion] makes: the chat call, or none when
    the client cannot be built. *)
Definition chat_trace (w : World) (key : option str) (transcript_text : str)
    : list event :=
  if has_ChatCompletion w then [chat_call w key transcript_text]
  else
    match OpenAI w key with
    | Ok _ => [chat_call w key transcript_text]
    | Raise _ => []
    end.

(** The same for [create_tts_audio]. *)
Definition speech_answer (w : World) (key : option str) (script : option str)
    : result pyobj :=
  if has_audio_speech w then audio_speech_create w (speech_request key script)
  else
    match OpenAI w key with
    | Ok _ => client_audio_speech_create w (speech_request key script)
    | Raise e => Raise e
    end.

Definition speech_call (w : World) (key : option str) (script : option str) : event :=
  CallSpeech (has_audio_speech w) (speech_request key script).

Definition speech_trace (w : World) (key : option str) (script : option str)
    : list event :=
  if has_audio_speech w then [speech_call w key script]
  else
    match OpenAI w key with
    | Ok _ => [speech_call w key script]
    | Raise _ => []
    end.

(** The state in which the pipeline of a [brew] starts: the URL box holds
    the typed URL and [openai.api_key] the typed key. *)
Definition at_brew (inp : Inputs) (st : State) : State :=
  {| session_state :=
       {| script := script (session_state st);
          audio := audio (session_state st);
          video_url := typed_url inp |};
     openai_api_key := Some (api_key inp) |}.

(** The state of a run before any handler: only the URL box is synced. *)
Definition at_start (inp : Inputs) (st : State) : State :=
  {| session_state :=
       {| script := script (session_state st);
          audio := audio (session_state st);
          video_url := typed_url inp |};
     openai_api_key := openai_api_key st |}.

Definition with_script (v : option str) (st : State) : State :=
  {| session_state :=
       {| script := v;
          audio := audio (session_state st);
          video_url := video_url (session_state st) |};
     openai_api_key := openai_api_key st |}.

Definition with_audio (v : pyobj) (st : State) : State :=
  {| session_state :=
       {| script := script (session_state st);
          audio := v;
          video_url := video_url (session_state st) |};
     openai_api_key := openai_api_key st |}.

(** What the last lines of the script show for a session state: the
    script when it is a non-empty string, then the audio when it is a
    non-empty [bytes] value. *)
Definition shown (ss : SessionState) : list event :=
  match script ss with
  | Some (c :: t) => [StWrite (c :: t)]
  | _ => []
  end
  ++ match audio ss with
     | PyBytes (b :: bs) => [StAudio (audio ss)]
     | _ => []
     end.

(** How the last lines of the script end for a session state: with the
    exception of [st.audio] when the audio is an object, normally
    otherwise. *)
Definition display_result (ss : SessionState) : outcome unit :=
  match audio ss with
  | PyObject _ _ => Raised invalid_audio_format
  | _ => Return tt
  end.

(** The message an exception of the pipeline is reported with. *)
Definition error_message (w : World) (exc : exn) : str :=
  if is_transcript_error exc then msg_transcript w exc else msg_generic w exc.

(** The message each class of exception is to be reported with: the
    transcript message for the three exceptions of the transcript
    library, the generic one for every other exception. *)
Definition category_message (w : World) (exc : exn) : str :=
  match exc with
  | VideoUnavailable _ => msg_transcript w exc
  | TranscriptsDisabled _ => msg_transcript w exc
  | NoTranscriptFound _ _ => msg_transcript w exc
  | OtherException _ => msg_generic w exc
  end.

(** The three messages of the precondition checks. *)
Definition validation_messages : list str :=
  [msg_need_key; msg_need_url; msg_invalid_url].

(** The track a list of language codes picks from a transcript list: of
    the first language that has a track at all, the manually created one
    when there is one, the generated one otherwise. *)
Inductive picks (tl : TranscriptList) : list str -> Transcript -> Prop :=
| picks_manual (code : str) (rest : list str) (t : Transcript) :
    manually_created_transcripts tl !! code = Some t ->
    picks tl (code :: rest) t
| picks_generated (code : str) (rest : list str) (t : Transcript) :
    manually_created_transcripts tl !! code = None ->
    generated_transcripts tl !! code = Some t ->
    picks tl (code :: rest) t
| picks_next (code : str) (rest : list str) (t : Transcript) :
    manually_created_transcripts tl !! code = None ->
    generated_transcripts tl !! code = None ->
    picks tl rest t ->
    picks tl (code :: rest) t.

(** No language of the list has a track of either kind. *)
Definition no_track (tl : TranscriptList) (codes : list str) : Prop :=
  Forall (fun code => manually_created_transcripts tl !! code = None
                      /\ generated_transcripts tl !! code = None) codes.

(** The texts with the separator put between consecutive ones. *)
Fixpoint interleave (sep : str) (texts : list str) : list str :=
  match texts with
  | [] => []
  | [x] => [x]
  | x :: rest => x :: sep :: interleave sep rest
  end.

(** The pieces of [s] between the occurrences of the character [sep]. *)
Fixpoint split_on (sep : N) (s : str) : list str :=
  match s with
  | [] => [[]]
  | c :: s' =>
      if c =? sep then [] :: split_on sep s'
      else
        match split_on sep s' with
        | piece :: pieces => (c :: piece) :: pieces
        | [] => [[c]]
        end
  end.

(** The outcome of a call as the outcome of the piece of script that
    makes it. *)
Definition outcome_of {A : Type} (r : result A) : outcome A :=
  match r with
  | Ok a => Return a
  | Raise e => Raised e
  end.

(** What the synthesis stage yields: the answer of the speech service,
    normalized. *)
Definition synthesis (w : World) (key : option str) (script : option str)
    : result pyobj :=
  match speech_answer w key script with
  | Ok audio_response => normalize_audio audio_response
  | Raise e => Raise e
  end.

(** ** Example URLs and worlds *)

Definition url_watch : str := utf8 "https://www.youtube.com/watch?v=abcdEFGH12_".
Definition url_hangul : str := utf8 "https://www.youtube.com/watch?v=가나다라마바사아자차카".
Definition id_hangul : str := utf8 "가나다라마바사아자차카".
Definition url_two_shapes : str := utf8 "https://youtu.be/abcdEFGH12_?rev=ZZZZZZZZZZZ".
Definition url_two_runs : str :=
  utf8 "https://www.youtube.com/watch?v=abcdEFGH12_&rev=ZZZZZZZZZZZZ".
Definition url_long_run : str := utf8 "https://www.youtube.com/watch?v=abcdEFGH12_5".

Definition track_ko_generated : Transcript :=
  {| language_code := utf8 "ko";
     is_generated := true;
     fetch := Ok [mkItem (utf8 "안녕하세요") 0 (3 # 2); mkItem (utf8 "뉴스입니다") (3 # 2) 2] |}.

Definition track_en_manual : Transcript :=
  {| language_code := utf8 "en";
     is_generated := false;
     fetch := Ok [mkItem (utf8 "Hello world") 0 1; mkItem (utf8 "this is news") 1 2] |}.

(** A video whose only track is an auto-generated Korean one. *)
Definition tl_generated_ko : TranscriptList :=
  {| tl_video_id := utf8 "abcdEFGH12_";
     manually_created_transcripts := ∅;
     generated_transcripts := {[ utf8 "ko" := track_ko_generated ]} |}.

(** A video with a human-authored English track and an auto-generated
    Korean one. *)
Definition tl_manual_en_generated_ko : TranscriptList :=
  {| tl_video_id := utf8 "abcdEFGH12_";
     manually_created_transcripts := {[ utf8 "en" := track_en_manual ]};
     generated_transcripts := {[ utf8 "ko" := track_ko_generated ]} |}.

(** A video with a human-authored English track only. *)
Definition tl_manual_en : TranscriptList :=
  {| tl_video_id := utf8 "abcdEFGH12_";
     manually_created_transcripts := {[ utf8 "en" := track_en_manual ]};
     generated_transcripts := ∅ |}.

Definition example_script : str := utf8 "네, 모닝 크레마 브리핑 시작하겠습니다.".

Definition example_audio : bytes := [Byte.x49; Byte.x44; Byte.x33].

Definition example_exc_str (e : exn) : str :=
  match e with
  | VideoUnavailable video_id => utf8 "video unavailable: " ++ video_id
  | TranscriptsDisabled video_id => utf8 "transcripts disabled: " ++ video_id
  | NoTranscriptFound video_id _ => utf8 "no transcript found: " ++ video_id
  | OtherException text => text
  end.

(** A world with the newer [openai] client, in which every service
    answers: the transcript service lists [tl], the chat service answers
    [example_script] and the speech service a response whose [read()]
    gives [example_audio]. *)
Definition world_of (tl : TranscriptList) : World :=
  {| list_transcripts := fun _ => Ok tl;
     has_ChatCompletion := false;
     ChatCompletion_create := fun _ => Raise (OtherException (utf8 "removed"));
     OpenAI := fun _ => Ok tt;
     client_chat_completions_create := fun _ => Ok (Some example_script);
     has_audio_speech := true;
     audio_speech_create := fun _ =>
       Ok (PyObject (Some (Ok (PyBytes example_audio))) (Some (PyBytes [])));
     client_audio_speech_create := fun _ => Raise (OtherException (utf8 "unused"));
     exc_str := example_exc_str |}.

(** The same world with the speech service down. *)
Definition world_speech_down (tl : TranscriptList) : World :=
  {| list_transcripts := fun _ => Ok tl;
     has_ChatCompletion := false;
     ChatCompletion_create := fun _ => Raise (OtherException (utf8 "removed"));
     OpenAI := fun _ => Ok tt;
     client_chat_completions_create := fun _ => Ok (Some example_script);
     has_audio_speech := true;
     audio_speech_create := fun _ => Raise (OtherException (utf8 "503"));
     client_audio_speech_create := fun _ => Raise (OtherException (utf8 "unused"));
     exc_str := example_exc_str |}.

(** A world whose transcript service reports disabled captions. *)
Definition world_captions_disabled : World :=
  {| list_transcripts := fun video_id => Raise (TranscriptsDisabled video_id);
     has_ChatCompletion := false;
     ChatCompletion_create := fun _ => Raise (OtherException (utf8 "removed"));
     OpenAI := fun _ => Ok tt;
     client_chat_completions_create := fun _ => Ok (Some example_script);
     has_audio_speech := true;
     audio_speech_create := fun _ => Raise (OtherException (utf8 "503"));
     client_audio_speech_create := fun _ => Raise (OtherException (utf8 "unused"));
     exc_str := example_exc_str |}.

Definition idle_state : State :=
  {| session_state := fresh_session; openai_api_key := None |}.

(** The user types a key and the watch link and presses Brew. *)
Definition brew_inputs : Inputs :=
  {| api_key := utf8 "sk-test"; typed_url := url_watch; brew := true; reset := false |}.

(** ** Further notions *)

(** [lit] and the known start [known] of a text agree as far as both go:
    the text may begin with [lit]. *)
Fixpoint may_start (lit known : str) : bool :=
  match lit, known with
  | c :: lit', k :: known' => (c =? k) && may_start lit' known'
  | _, _ => true
  end.

(** No occurrence of [lit] can begin inside the known prefix [P] of a
    text. *)
Definition cannot_start_in (lit P : str) : bool :=
  forallb (fun i => negb (may_start lit (drop i P))) (seq 0 (length P)).

(** The stage a remote call belongs to. *)
Inductive stage : Type :=
| ListStage
| FetchStage
| ChatStage
| SpeechStage.

Definition stage_of (ev : event) : option stage :=
  match ev with
  | CallListTranscripts _ => Some ListStage
  | CallFetch _ => Some FetchStage
  | CallChat _ _ => Some ChatStage
  | CallSpeech _ _ => Some SpeechStage
  | _ => None
  end.

(** The stages of the remote calls of a run, in the order of the calls. *)
Definition stages (tr : list event) : list stage := omap stage_of tr.

Definition pipeline_order : list stage :=
  [ListStage; FetchStage; ChatStage; SpeechStage].

Definition is_error (ev : event) : bool :=
  match ev with
  | StError _ => true
  | _ => false
  end.

(** The [st.error] messages of a run. *)
Definition errors (tr : list event) : list event := List.filter is_error tr.

(** The fixed part of the user message (lines 70 to 71 and the blank line
    before the transcript). *)
Definition user_instruction : str := user_prompt [].

(** A sequence of user actions on one session, with the events of all
    the runs. *)
Fixpoint interactions (w : World) (inps : list Inputs) (st : State)
    : State * list event :=
  match inps with
  | [] => (st, [])
  | inp :: rest =>
      match interact w inp st with
      | (st1, tr1, _) =>
          match interactions w rest st1 with
          | (st2, tr2) => (st2, tr1 ++ tr2)
          end
      end
  end.

(** No button is pressed. *)
Definition idle (inp : Inputs) : bool := negb (brew inp) && negb (reset inp).

(** The transcript text of a fetched track. *)
Definition transcript_text_of (parts : list Item) : str :=
  str_join (utf8 " ") (map item_text parts).

(** The ways a run of the script can go, each with the state it ends in,
    its events and how it ends (the display at the end raises when the
    audio of the session is an object): Re-brew pressed; no button pressed; one of
    the three checks of a [brew] failing; the pipeline stopping at the
    listing, at the choice of a track, at the fetch, at the chat call or at
    the synthesis; and the pipeline completing. *)
Inductive Run (w : World) (inp : Inputs) (st : State)
    : State * list event * outcome unit -> Prop :=
| run_reset :
    reset inp = true ->
    Run w inp st
      ({| session_state := fresh_session; openai_api_key := openai_api_key st |},
       [StRerun], Rerun)
| run_idle :
    reset inp = false -> brew inp = false ->
    Run w inp st
      (at_start inp st, shown (session_state st), display_result (session_state st))
| run_no_key :
    reset inp = false -> brew inp = true ->
    str_empty (api_key inp) = true ->
    Run w inp st
      (at_start inp st, StError msg_need_key :: shown (session_state st),
       display_result (session_state st))
| run_no_url :
    reset inp = false -> brew inp = true ->
    str_empty (api_key inp) = false -> str_empty (typed_url inp) = true ->
    Run w inp st
      (at_start inp st, StError msg_need_url :: shown (session_state st),
       display_result (session_state st))
| run_no_id :
    reset inp = false -> brew inp = true ->
    str_empty (api_key inp) = false -> str_empty (typed_url inp) = false ->
    extract_video_id (typed_url inp) = None ->
    Run w inp st
      (at_brew inp st, StError msg_invalid_url :: shown (session_state st),
       display_result (session_state st))
| run_list_failed (id : str) (e : exn) :
    reset inp = false -> brew inp = true ->
    str_empty (api_key inp) = false ->
    extract_video_id (typed_url inp) = Some id ->
    list_transcripts w id = Raise e ->
    Run w inp st
      (at_brew inp st,
       [CallListTranscripts id; StError (error_message w e)]
       ++ shown (session_state st),
       display_result (session_state st))
| run_no_track (id : str) (tl : TranscriptList) :
    reset inp = false -> brew inp = true ->
    str_empty (api_key inp) = false ->
    extract_video_id (typed_url inp) = Some id ->
    list_transcripts w id = Ok tl ->
    no_track tl preferred_languages ->
    Run w inp st
      (at_brew inp st,
       [CallListTranscripts id;
        StError (error_message w
                   (NoTranscriptFound (tl_video_id tl) generated_languages))]
       ++ shown (session_state st),
       display_result (session_state st))
| run_fetch_failed (id : str) (tl : TranscriptList) (t : Transcript) (e : exn) :
    reset inp = false -> brew inp = true ->
    str_empty (api_key inp) = false ->
    extract_video_id (typed_url inp) = Some id ->
    list_transcripts w id = Ok tl ->
    picks tl preferred_languages t ->
    fetch t = Raise e ->
    Run w inp st
      (at_brew inp st,
       [CallListTranscripts id; CallFetch t; StError (error_message w e)]
       ++ shown (session_state st),
       display_result (session_state st))
| run_chat_failed (id : str) (tl : TranscriptList) (t : Transcript)
    (parts : list Item) (e : exn) :
    reset inp = false -> brew inp = true ->
    str_empty (api_key inp) = false ->
    extract_video_id (typed_url inp) = Some id ->
    list_transcripts w id = Ok tl ->
    picks tl preferred_languages t ->
    fetch t = Ok parts ->
    chat_answer w (Some (api_key inp)) (transcript_text_of parts) = Raise e ->
    Run w inp st
      (at_brew inp st,
       [CallListTranscripts id; CallFetch t]
       ++ chat_trace w (Some (api_key inp)) (transcript_text_of parts)
       ++ [StError (error_message w e)]
       ++ shown (session_state st),
       display_result (session_state st))
| run_speech_failed (id : str) (tl : TranscriptList) (t : Transcript)
    (parts : list Item) (sc : option str) (e : exn) :
    reset inp = false -> brew inp = true ->
    str_empty (api_key inp) = false ->
    extract_video_id (typed_url inp) = Some id ->
    list_transcripts w id = Ok tl ->
    picks tl preferred_languages t ->
    fetch t = Ok parts ->
    chat_answer w (Some (api_key inp)) (transcript_text_of parts) = Ok sc ->
    synthesis w (Some (api_key inp)) sc = Raise e ->
    Run w inp st
      (with_script sc (at_brew inp st),
       [CallListTranscripts id; CallFetch t;
        chat_call w (Some (api_key inp)) (transcript_text_of parts)]
       ++ speech_trace w (Some (api_key inp)) sc
       ++ [StError (error_message w e)]
       ++ shown {| script := sc;
                   audio := audio (session_state st);
                   video_url := typed_url inp |},
       display_result {| script := sc;
                         audio := audio (session_state st);
                         video_url := typed_url inp |})
| run_done (id : str) (tl : TranscriptList) (t : Transcript)
    (parts : list Item) (sc : option str) (a : pyobj) :
    reset inp = false -> brew inp = true ->
    str_empty (api_key inp) = false ->
    extract_video_id (typed_url inp) = Some id ->
    list_transcripts w id = Ok tl ->
    picks tl preferred_languages t ->
    fetch t = Ok parts ->
    chat_answer w (Some (api_key inp)) (transcript_text_of parts) = Ok sc ->
    synthesis w (Some (api_key inp)) sc = Ok a ->
    Run w inp st
      (with_audio a (with_script sc (at_brew inp st)),
       [CallListTranscripts id; CallFetch t;
        chat_call w (Some (api_key inp)) (transcript_text_of parts);
        speech_call w (Some (api_key inp)) sc]
       ++ shown {| script := sc; audio := a; video_url := typed_url inp |},
       display_result {| script := sc; audio := a; video_url := typed_url inp |}).

(** * Properties *)

(** ** Matching the identifier patterns *)

Lemma match_repeat_S (r : regex) (n : nat) (s : str) :
  match_re (Repeat r (S n)) s =
  match match_re r s with
  | Some (s', _) => match_re (Repeat r n) s'
  | None => None
  end.
Proof. reflexivity. Qed.

Lemma match_literal (l s rest : str) (g : option str) :
  match_re (literal l) s = Some (rest, g) <-> s = l ++ rest /\ g = None.
Proof.
  revert s rest g. induction l as [|c l IH]; intros s rest g; simpl.
  - split.
    + intros H. injection H as -> <-. auto.
    + intros [-> ->]. reflexivity.
  - destruct s as [|x s]; simpl.
    + split; [discriminate | intros [H _]; discriminate].
    + destruct (N.eqb_spec c x) as [->|Hne].
      * destruct (match_re (literal l) s) as [[s2 g2]|] eqn:E.
        -- apply IH in E as [-> ->]. split.
           ++ intros H. injection H as -> <-. auto.
           ++ intros [H ->]. injection H as ->%app_inv_head. reflexivity.
        -- split; [discriminate|]. intros [H ->]. injection H as ->.
           assert (match_re (literal l) (l ++ rest) = Some (rest, None)) as E'
             by (apply IH; auto).
           congruence.
      * split; [discriminate|]. intros [H _]. congruence.
Qed.

Lemma match_class_repeat (n : nat) (s rest : str) (g : option str) :
  match_re (Repeat WordOrDash n) s = Some (rest, g) <->
  exists X, s = X ++ rest /\ length X = n
            /\ forallb is_word_or_dash X = true /\ g = None.
Proof.
  revert s rest g. induction n as [|n IH]; intros s rest g.
  - simpl. split.
    + intros H. injection H as -> <-. exists []. auto.
    + intros (X & -> & HX & _ & ->). destruct X; [reflexivity|discriminate].
  - rewrite match_repeat_S.
    change (match_re WordOrDash s) with (match_char is_word_or_dash s).
    destruct s as [|x s]; unfold match_char.
    + split; [discriminate|]. intros (X & HX & Hlen & _).
      destruct X; discriminate.
    + destruct (is_word_or_dash x) eqn:Hx.
      * rewrite IH. split.
        -- intros (X & -> & Hlen & Hall & ->). exists (x :: X). simpl.
           rewrite Hx, Hall, Hlen. auto.
        -- intros (X & HX & Hlen & Hall & ->). destruct X as [|y X]; [discriminate|].
           simpl in *. injection HX as <- ->. injection Hlen as Hlen.
           rewrite Hx in Hall. exists X. auto.
      * split; [discriminate|]. intros (X & HX & Hlen & Hall & _).
        destruct X as [|y X]; [discriminate|]. simpl in *.
        injection HX as <- _. rewrite Hx in Hall. discriminate.
Qed.

Lemma consumed_app (X rest : str) : consumed (X ++ rest) rest = X.
Proof.
  unfold consumed. rewrite length_app.
  replace (length X + length rest - length rest)%nat with (length X) by lia.
  apply take_app_length.
Qed.

Lemma is_token_spec (X : str) :
  is_token X = true <-> length X = 11%nat /\ forallb is_word_or_dash X = true.
Proof.
  unfold is_token. rewrite andb_true_iff, Nat.eqb_eq. reflexivity.
Qed.

Lemma match_id_pattern (lit s rest : str) (g : option str) :
  match_re (id_pattern lit) s = Some (rest, g) <->
  exists X, s = lit ++ X ++ rest /\ is_token X = true /\ g = Some X.
Proof.
  unfold id_pattern.
  change (match_re (Cat (literal lit) (Group (Repeat WordOrDash 11))) s) with
    (match match_re (literal lit) s with
     | Some (s1, g1) =>
         match
           match match_re (Repeat WordOrDash 11) s1 with
           | Some (s', _) => Some (s', Some (consumed s1 s'))
           | None => None
           end
         with
         | Some (s2, g2) => Some (s2, match g2 with Some _ => g2 | None => g1 end)
         | None => None
         end
     | None => None
     end).
  destruct (match_re (literal lit) s) as [[s1 g1]|] eqn:E1.
  - apply match_literal in E1 as [-> ->].
    destruct (match_re (Repeat WordOrDash 11) s1) as [[s2 g2]|] eqn:E2.
    + apply match_class_repeat in E2 as (X & -> & Hlen & Hall & ->).
      rewrite consumed_app. split.
      * intros H. injection H as -> <-. exists X.
        rewrite is_token_spec. auto.
      * intros (Y & HY & [HlenY _]%is_token_spec & ->).
        apply app_inv_head in HY.
        assert (X = Y /\ s2 = rest) as [-> ->].
        { apply app_inj_1; [congruence | exact HY]. }
        reflexivity.
    + split; [discriminate|]. intros (Y & HY & [HlenY HallY]%is_token_spec & ->).
      apply app_inv_head in HY. subst s1.
      assert (match_re (Repeat WordOrDash 11) (Y ++ rest) = Some (rest, None)) as E'.
      { apply match_class_repeat. exists Y. auto. }
      congruence.
  - split; [discriminate|]. intros (Y & -> & _ & _).
    assert (match_re (literal lit) (lit ++ Y ++ rest) = Some (Y ++ rest, None)) as E'
      by (apply match_literal; auto).
    congruence.
Qed.

Lemma search_from_some (i : nat) (r : regex) (s : str) (m : Match) :
  search_from i r s = Some m ->
  exists pre suf rest,
    s = pre ++ suf /\ match_re r suf = Some (rest, m_group1 m)
    /\ forall pre' suf', s = pre' ++ suf' -> (length pre' < length pre)%nat ->
                         match_re r suf' = None.
Proof.
  revert i. induction s as [|x s IH]; intros i; simpl.
  - destruct (match_re r []) as [[rest g]|] eqn:E; [|discriminate].
    intros H. injection H as <-. exists [], [], rest. simpl.
    repeat split; auto. intros pre' suf' _ Hlt. lia.
  - destruct (match_re r (x :: s)) as [[rest g]|] eqn:E.
    + intros H. injection H as <-. exists [], (x :: s), rest. simpl.
      repeat split; auto. intros pre' suf' _ Hlt. lia.
    + intros H. apply IH in H as (pre & suf & rest & -> & Hm & Hleft).
      exists (x :: pre), suf, rest. repeat split; auto.
      intros pre' suf' Heq Hlt. destruct pre' as [|y pre'].
      * simpl in Heq. subst suf'. exact E.
      * simpl in Heq, Hlt. injection Heq as <- Heq.
        apply (Hleft pre' suf' Heq). lia.
Qed.

Lemma search_from_none (i : nat) (r : regex) (s : str) :
  search_from i r s = None <->
  forall pre suf, s = pre ++ suf -> match_re r suf = None.
Proof.
  revert i. induction s as [|x s IH]; intros i; simpl.
  - destruct (match_re r []) as [[rest g]|] eqn:E.
    + split; [discriminate|]. intros H. specialize (H [] [] eq_refl). congruence.
    + split; [|reflexivity]. intros _ pre suf Heq.
      symmetry in Heq. apply app_eq_nil in Heq as [-> ->]. exact E.
  - destruct (match_re r (x :: s)) as [[rest g]|] eqn:E.
    + split; [discriminate|]. intros H. specialize (H [] (x :: s) eq_refl). congruence.
    + rewrite IH. split.
      * intros H pre suf Heq. destruct pre as [|y pre].
        -- simpl in Heq. subst suf. exact E.
        -- simpl in Heq. injection Heq as <- Heq. eauto.
      * intros H pre suf ->. apply (H (x :: pre) suf). reflexivity.
Qed.

Lemma shape_at_match (lit url pre X : str) :
  shape_at lit url pre X <->
  exists suf rest, url = pre ++ suf /\ match_re (id_pattern lit) suf = Some (rest, Some X).
Proof.
  split.
  - intros (post & -> & Htok). exists (lit ++ X ++ post), post. split; [reflexivity|].
    apply match_id_pattern. exists X. auto.
  - intros (suf & rest & -> & Hm). apply match_id_pattern in Hm as (Y & -> & Htok & HY).
    injection HY as <-. exists rest. auto.
Qed.

Lemma re_search_id_some (lit url : str) (m : Match) :
  re_search (id_pattern lit) url = Some m ->
  exists X, m_group1 m = Some X /\ leftmost lit url X.
Proof.
  intros H. apply search_from_some in H as (pre & suf & rest & -> & Hm & Hleft).
  pose proof Hm as Hm'.
  apply match_id_pattern in Hm' as (X & -> & Htok & HX).
  exists X. split; [exact HX|]. exists pre. split.
  - exists rest. auto.
  - intros pre' X' Hs. apply shape_at_match in Hs as (suf' & rest' & Heq & Hm2).
    destruct (Nat.le_gt_cases (length pre) (length pre')) as [Hle|Hlt]; [exact Hle|].
    rewrite (Hleft pre' suf' Heq Hlt) in Hm2. discriminate.
Qed.

Lemma re_search_id_none (lit url : str) :
  re_search (id_pattern lit) url = None <-> ~ has_shape lit url.
Proof.
  unfold re_search. rewrite search_from_none. split.
  - intros H (pre & X & Hs). apply shape_at_match in Hs as (suf & rest & Heq & Hm).
    rewrite (H pre suf Heq) in Hm. discriminate.
  - intros H pre suf Heq.
    destruct (match_re (id_pattern lit) suf) as [[rest g]|] eqn:E; [|reflexivity].
    exfalso. apply H. pose proof E as E'.
    apply match_id_pattern in E' as (X & _ & _ & ->).
    exists pre, X. apply shape_at_match. eauto.
Qed.

Lemma shape_at_unique (lit url pre pre' X X' : str) :
  shape_at lit url pre X -> shape_at lit url pre' X' ->
  length pre = length pre' -> pre = pre' /\ X = X'.
Proof.
  intros (post & -> & [HX _]%is_token_spec) (post' & Heq & [HX' _]%is_token_spec) Hlen.
  apply app_inj_1 in Heq as [-> Heq]; [|exact Hlen].
  apply app_inv_head in Heq.
  apply app_inj_1 in Heq as [-> _]; [auto | congruence].
Qed.

Lemma leftmost_unique (lit url X Y : str) :
  leftmost lit url X -> leftmost lit url Y -> X = Y.
Proof.
  intros (pre & Hs & Hf) (pre' & Hs' & Hf').
  pose proof (Hf _ _ Hs'). pose proof (Hf' _ _ Hs).
  apply (shape_at_unique lit url pre pre' X Y Hs Hs'). lia.
Qed.

Lemma leftmost_re_search (lit url X : str) :
  leftmost lit url X ->
  exists m, re_search (id_pattern lit) url = Some m /\ m_group1 m = Some X.
Proof.
  intros HX. destruct (re_search (id_pattern lit) url) as [m|] eqn:E.
  - exists m. split; [reflexivity|].
    destruct (re_search_id_some _ _ _ E) as (Y & HY & HlY).
    rewrite HY. f_equal. eapply leftmost_unique; eauto.
  - apply re_search_id_none in E. exfalso. apply E.
    destruct HX as (pre & Hs & _). exists pre, X. exact Hs.
Qed.

Lemma patterns_eq :
  patterns = [id_pattern lit_v; id_pattern lit_youtu_be; id_pattern lit_shorts].
Proof. reflexivity. Qed.

Lemma extract_video_id_some (url X : str) :
  extract_video_id url = Some X <-> exists lit pre, chosen url lit pre X.
Proof.
  unfold extract_video_id. rewrite patterns_eq. simpl first_group.
  destruct (re_search (id_pattern lit_v) url) as [m|] eqn:Ev.
  { apply re_search_id_some in Ev as (Y & -> & HlY). split.
    - intros H. injection H as ->. destruct HlY as (pre & Hs & Hf).
      exists lit_v, pre. repeat split; auto. left. reflexivity.
    - intros (lit & pre & Hs & Hf & [->|[(-> & Hno)|(-> & Hno & _)]]).
      + f_equal. apply (leftmost_unique lit_v url); [exact HlY|]. exists pre. auto.
      + exfalso. apply Hno. destruct HlY as (p & Hp & _). exists p, Y. exact Hp.
      + exfalso. apply Hno. destruct HlY as (p & Hp & _). exists p, Y. exact Hp. }
  apply re_search_id_none in Ev.
  destruct (re_search (id_pattern lit_youtu_be) url) as [m|] eqn:Ey.
  { apply re_search_id_some in Ey as (Y & -> & HlY). split.
    - intros H. injection H as ->. destruct HlY as (pre & Hs & Hf).
      exists lit_youtu_be, pre. repeat split; auto. right. left. auto.
    - intros (lit & pre & Hs & Hf & [->|[(-> & Hno)|(-> & _ & Hno)]]).
      + exfalso. apply Ev. exists pre, X. exact Hs.
      + f_equal. apply (leftmost_unique lit_youtu_be url); [exact HlY|]. exists pre. auto.
      + exfalso. apply Hno. destruct HlY as (p & Hp & _). exists p, Y. exact Hp. }
  apply re_search_id_none in Ey.
  destruct (re_search (id_pattern lit_shorts) url) as [m|] eqn:Es.
  { apply re_search_id_some in Es as (Y & -> & HlY). split.
    - intros H. injection H as ->. destruct HlY as (pre & Hs & Hf).
      exists lit_shorts, pre. repeat split; auto. right. right. auto.
    - intros (lit & pre & Hs & Hf & [->|[(-> & Hno)|(-> & _ & Hno)]]).
      + exfalso. apply Ev. exists pre, X. exact Hs.
      + exfalso. apply Ey. exists pre, X. exact Hs.
      + f_equal. apply (leftmost_unique lit_shorts url); [exact HlY|]. exists pre. auto. }
  apply re_search_id_none in Es. split; [discriminate|].
  intros (lit & pre & Hs & Hf & [->|[(-> & Hno)|(-> & _ & Hno)]]); exfalso.
  - apply Ev. exists pre, X. exact Hs.
  - apply Ey. exists pre, X. exact Hs.
  - apply Es. exists pre, X. exact Hs.
Qed.

Lemma extract_video_id_none (url : str) :
  extract_video_id url = None <->
  ~ has_shape lit_v url /\ ~ has_shape lit_youtu_be url /\ ~ has_shape lit_shorts url.
Proof.
  unfold extract_video_id. rewrite patterns_eq. simpl first_group.
  destruct (re_search (id_pattern lit_v) url) as [m|] eqn:Ev.
  { pose proof Ev as Ev'. apply re_search_id_some in Ev' as (Y & -> & (p & Hp & _)).
    split; [discriminate|]. intros (H & _). exfalso. apply H. exists p, Y. exact Hp. }
  destruct (re_search (id_pattern lit_youtu_be) url) as [m|] eqn:Ey.
  { pose proof Ey as Ey'. apply re_search_id_some in Ey' as (Y & -> & (p & Hp & _)).
    split; [discriminate|]. intros (_ & H & _). exfalso. apply H. exists p, Y. exact Hp. }
  destruct (re_search (id_pattern lit_shorts) url) as [m|] eqn:Es.
  { pose proof Es as Es'. apply re_search_id_some in Es' as (Y & -> & (p & Hp & _)).
    split; [discriminate|]. intros (_ & _ & H). exfalso. apply H. exists p, Y. exact Hp. }
  apply re_search_id_none in Ev, Ey, Es. split; auto.
Qed.

(** ** The character classes on ASCII *)

Lemma ascii_class_table :
  forallb (fun c => Bool.eqb (is_word_or_dash c) (is_urlsafe c))
          (map N.of_nat (seq 0 128)) = true.
Proof. vm_compute. reflexivity. Qed.

Lemma ascii_word_or_dash (c : N) :
  is_ascii c = true -> is_word_or_dash c = is_urlsafe c.
Proof.
  unfold is_ascii. intros Hc%N.ltb_lt.
  pose proof ascii_class_table as H. rewrite forallb_forall in H.
  apply Bool.eqb_prop, H.
  replace c with (N.of_nat (N.to_nat c)) by apply N2Nat.id.
  apply in_map, in_seq. lia.
Qed.

Lemma urlsafe_ascii (c : N) : is_urlsafe c = true -> is_ascii c = true.
Proof.
  unfold is_urlsafe, is_ascii.
  rewrite !orb_true_iff, !andb_true_iff, !N.leb_le, !N.eqb_eq, N.ltb_lt. lia.
Qed.

Lemma urlsafe_word_or_dash (c : N) : is_urlsafe c = true -> is_word_or_dash c = true.
Proof.
  intros H. rewrite ascii_word_or_dash; [exact H | apply urlsafe_ascii, H].
Qed.

Lemma forallb_urlsafe_word (X : str) :
  forallb is_urlsafe X = true -> forallb is_word_or_dash X = true.
Proof.
  rewrite !forallb_forall. intros H c Hc. apply urlsafe_word_or_dash, H, Hc.
Qed.

(** ** C2, C3 and C9: what [extract_video_id] returns *)

(** C2 (as amended): every identifier [extract_video_id] returns is exactly
    11 characters long and each of its characters is in [[\w-]], that is a
    Unicode alphanumeric, the underscore or the hyphen; it is in the class
    [[A-Za-z0-9_-]{11}] exactly when its characters are ASCII, which they
    are whenever the URL is ASCII. *)
Theorem extract_video_id_token (url id : str) :
  extract_video_id url = Some id ->
  length id = 11%nat
  /\ forallb is_word_or_dash id = true
  /\ forallb is_urlsafe id = forallb is_ascii id
  /\ (forallb is_ascii url = true -> forallb is_urlsafe id = true).
Proof.
  intros H. apply extract_video_id_some in H as (lit & pre & Hs & _).
  destruct Hs as (post & -> & [Hlen Hall]%is_token_spec).
  assert (forallb is_urlsafe id = forallb is_ascii id) as Heq.
  { clear Hlen. induction id as [|c id IH]; [reflexivity|].
    simpl in *. apply andb_true_iff in Hall as [Hc Hall].
    rewrite (IH Hall). destruct (is_ascii c) eqn:Ha.
    - rewrite <- ascii_word_or_dash, Hc by exact Ha. reflexivity.
    - destruct (is_urlsafe c) eqn:Hu; [|reflexivity].
      apply urlsafe_ascii in Hu. congruence. }
  repeat split; auto.
  intros Hurl. rewrite Heq. rewrite !forallb_app in Hurl.
  repeat (apply andb_true_iff in Hurl as [? Hurl]). assumption.
Qed.

Lemma extract_video_id_token_witness :
  extract_video_id url_watch = Some (utf8 "abcdEFGH12_")
  /\ length (utf8 "abcdEFGH12_") = 11%nat
  /\ forallb is_urlsafe (utf8 "abcdEFGH12_") = true.
Proof.
  split; [vm_compute; reflexivity|].
  destruct (extract_video_id_token url_watch (utf8 "abcdEFGH12_"))
    as (Hlen & _ & _ & Hsafe); [vm_compute; reflexivity|].
  split; [exact Hlen | apply Hsafe; vm_compute; reflexivity].
Defined.

(** C2, counterexample: the identifier extracted from a watch link whose
    [v] parameter is eleven Hangul syllables is those syllables, none of
    which is in [[A-Za-z0-9_-]]. *)
Lemma extract_video_id_hangul :
  extract_video_id url_hangul = Some id_hangul
  /\ forallb is_urlsafe id_hangul = false
  /\ existsb is_urlsafe id_hangul = false.
Proof. vm_compute. auto. Qed.

(** C3 (as amended): [extract_video_id] returns [X] exactly when the URL
    holds a shape [v=X], [youtu.be/X] or [shorts/X], with [X] eleven
    characters of [[\w-]], at an occurrence that is the leftmost one of its
    shape while no shape earlier in the order [v=], [youtu.be/], [shorts/]
    occurs anywhere in the URL; it returns [None] exactly when the URL
    holds none of the three shapes. *)
Theorem extract_video_id_spec (url : str) :
  (forall X, extract_video_id url = Some X <-> exists lit pre, chosen url lit pre X)
  /\ (extract_video_id url = None <->
      ~ has_shape lit_v url /\ ~ has_shape lit_youtu_be url /\ ~ has_shape lit_shorts url).
Proof.
  split; [intros X; apply extract_video_id_some | apply extract_video_id_none].
Qed.

Lemma has_run_window (p : N -> bool) (pre X post : str) :
  forallb p X = true -> has_run p (length X) (pre ++ X ++ post) = true.
Proof.
  intros HX. induction pre as [|c pre IH].
  - simpl app. destruct (X ++ post) eqn:E; simpl has_run; rewrite <- ?E;
      rewrite take_app_length, Nat.eqb_refl, HX; reflexivity.
  - simpl. rewrite IH. apply orb_true_r.
Qed.

(** C3, counterexample.  A short link that also carries a parameter
    [rev=ZZZZZZZZZZZ] holds the shape [youtu.be/abcdEFGH12_], yet the
    result is [ZZZZZZZZZZZ]; and the watch link with eleven Hangul
    syllables holds none of the three shapes over URL-safe characters,
    yet the result is not [None]. *)
Lemma extract_video_id_shapes_counterexample :
  (url_two_shapes
     = utf8 "https://" ++ lit_youtu_be ++ utf8 "abcdEFGH12_" ++ utf8 "?rev=ZZZZZZZZZZZ"
   /\ is_urlsafe_token (utf8 "abcdEFGH12_") = true
   /\ extract_video_id url_two_shapes = Some (utf8 "ZZZZZZZZZZZ")
   /\ utf8 "ZZZZZZZZZZZ" <> utf8 "abcdEFGH12_")
  /\ (~ (exists lit pre X post,
           url_hangul = pre ++ lit ++ X ++ post /\ is_urlsafe_token X = true)
      /\ extract_video_id url_hangul = Some id_hangul).
Proof.
  split.
  - repeat split; try (vm_compute; reflexivity). discriminate.
  - split; [|vm_compute; reflexivity].
    intros (lit & pre & X & post & Heq & Htok).
    unfold is_urlsafe_token in Htok. apply andb_true_iff in Htok as [Hlen HX].
    apply Nat.eqb_eq in Hlen.
    pose proof (has_run_window is_urlsafe (pre ++ lit) X post HX) as Hw.
    rewrite <- app_assoc, <- Heq, Hlen in Hw. vm_compute in Hw. discriminate.
Qed.

Lemma first_occurrence_check (lit url pre : str) :
  forallb (fun i => match match_re (id_pattern lit) (drop i url) with
                    | None => true
                    | Some _ => false
                    end) (seq 0 (length pre)) = true ->
  first_occurrence lit url pre.
Proof.
  intros Hchk pre' X' Hs.
  destruct (Nat.le_gt_cases (length pre) (length pre')) as [Hle|Hlt]; [exact Hle|].
  exfalso. rewrite forallb_forall in Hchk.
  specialize (Hchk (length pre')). 
  destruct Hs as (post & -> & Htok).
  rewrite drop_app_length in Hchk.
  assert (match_re (id_pattern lit) (lit ++ X' ++ post) = Some (post, Some X')) as E.
  { apply match_id_pattern. exists X'. auto. }
  rewrite E in Hchk. discriminate Hchk. apply in_seq. lia.
Qed.

Lemma take_token (run : str) :
  (11 <= length run)%nat -> forallb is_word_or_dash run = true ->
  is_token (take 11 run) = true.
Proof.
  intros Hlen Hall. apply is_token_spec. split.
  - rewrite length_take. lia.
  - rewrite <- (take_drop 11 run), forallb_app in Hall.
    apply andb_true_iff in Hall as [H _]. exact H.
Qed.

(** C9 (as amended): for every URL that holds one of the three shapes
    followed by a run of more than 11 URL-safe characters,
    [extract_video_id] does not return [None]; and when that occurrence is
    the one it picks (it is the leftmost occurrence of its shape and no
    shape earlier in the order occurs in the URL), it returns the first 11
    characters of the run. *)
Theorem extract_video_id_long_run (lit pre run post : str) :
  In lit [lit_v; lit_youtu_be; lit_shorts] ->
  (11 < length run)%nat ->
  forallb is_urlsafe run = true ->
  extract_video_id (pre ++ lit ++ run ++ post) <> None
  /\ (first_occurrence lit (pre ++ lit ++ run ++ post) pre ->
      no_earlier_pattern lit (pre ++ lit ++ run ++ post) ->
      extract_video_id (pre ++ lit ++ run ++ post) = Some (take 11 run)).
Proof.
  intros Hlit Hlen Hall.
  assert (shape_at lit (pre ++ lit ++ run ++ post) pre (take 11 run)) as Hs.
  { exists (drop 11 run ++ post). split.
    - rewrite (app_assoc (take 11 run)), take_drop. reflexivity.
    - apply take_token; [lia | apply forallb_urlsafe_word, Hall]. }
  split.
  - intros Hnone. apply extract_video_id_none in Hnone as (Hv & Hy & Hsh).
    assert (has_shape lit (pre ++ lit ++ run ++ post)) as Hhas by (eexists _, _; exact Hs).
    simpl in Hlit. destruct Hlit as [<-|[<-|[<-|[]]]]; tauto.
  - intros Hfirst Hno. apply extract_video_id_some. exists lit, pre.
    repeat split; assumption.
Qed.

Lemma extract_video_id_long_run_witness :
  url_long_run = utf8 "https://www.youtube.com/watch?" ++ lit_v ++ utf8 "abcdEFGH12_5" ++ []
  /\ extract_video_id url_long_run <> None
  /\ extract_video_id url_long_run = Some (utf8 "abcdEFGH12_").
Proof.
  split; [vm_compute; reflexivity|].
  destruct (extract_video_id_long_run lit_v (utf8 "https://www.youtube.com/watch?")
              (utf8 "abcdEFGH12_5") [])
    as [Hsome Hpick].
  - left. reflexivity.
  - vm_compute. lia.
  - vm_compute. reflexivity.
  - split; [exact Hsome|]. apply Hpick.
    + apply first_occurrence_check. vm_compute. reflexivity.
    + left. reflexivity.
Defined.

(** C9, counterexample: a watch link with a further parameter
    [rev=ZZZZZZZZZZZZ] holds the shape [v=] followed by a run of 12
    URL-safe characters, yet the result is the identifier of the first
    [v=], not the first 11 characters of that run. *)
Lemma extract_video_id_long_run_counterexample :
  url_two_runs
    = utf8 "https://www.youtube.com/watch?v=abcdEFGH12_&re" ++ lit_v
      ++ utf8 "ZZZZZZZZZZZZ" ++ []
  /\ length (utf8 "ZZZZZZZZZZZZ") = 12%nat
  /\ forallb is_urlsafe (utf8 "ZZZZZZZZZZZZ") = true
  /\ extract_video_id url_two_runs = Some (utf8 "abcdEFGH12_")
  /\ utf8 "abcdEFGH12_" <> take 11 (utf8 "ZZZZZZZZZZZZ").
Proof.
  repeat split; try (vm_compute; reflexivity). vm_compute. discriminate.
Qed.

(** ** C1 and C8: the transcript retriever *)

Lemma find_in_dicts_picks (tl : TranscriptList) (codes : list str) (t : Transcript) :
  find_in_dicts codes [manually_created_transcripts tl; generated_transcripts tl] = Some t
  <-> picks tl codes t.
Proof.
  induction codes as [|code rest IH]; cbn [find_in_dicts lookup_dicts].
  - split; [discriminate | inversion 1].
  - destruct (manually_created_transcripts tl !! code) as [m|] eqn:Em.
    { split.
      - intros H. injection H as <-. apply picks_manual, Em.
      - inversion 1; subst; congruence. }
    destruct (generated_transcripts tl !! code) as [g|] eqn:Eg.
    { split.
      - intros H. injection H as <-. apply picks_generated; assumption.
      - inversion 1; subst; congruence. }
    rewrite IH. split.
    + intros H. apply picks_next; assumption.
    + inversion 1; subst; congruence.
Qed.

Lemma find_in_dicts_no_track (tl : TranscriptList) (codes : list str) :
  find_in_dicts codes [manually_created_transcripts tl; generated_transcripts tl] = None
  <-> no_track tl codes.
Proof.
  unfold no_track.
  induction codes as [|code rest IH]; cbn [find_in_dicts lookup_dicts].
  - split; [constructor | reflexivity].
  - rewrite Forall_cons, <- IH.
    destruct (manually_created_transcripts tl !! code) as [m|];
      [split; [discriminate | intros [[? _] _]; discriminate]|].
    destruct (generated_transcripts tl !! code) as [g|];
      [split; [discriminate | intros [[_ ?] _]; discriminate]|].
    tauto.
Qed.

(** Once the first lookup has failed the second one fails too: its
    languages are among those of the first, whose lookup covers the
    generated tracks. *)
Lemma generated_fallback_fails (tl : TranscriptList) :
  no_track tl preferred_languages ->
  find_in_dicts generated_languages [generated_transcripts tl] = None.
Proof.
  unfold no_track, preferred_languages, generated_languages.
  rewrite !Forall_cons. intros (_ & (_ & Hen) & (_ & Hus) & (_ & Hgb) & _).
  cbn [find_in_dicts lookup_dicts]. rewrite Hen, Hus, Hgb. reflexivity.
Qed.

Lemma picks_or_no_track (tl : TranscriptList) (codes : list str) :
  (exists t, picks tl codes t) \/ no_track tl codes.
Proof.
  destruct (find_in_dicts codes
              [manually_created_transcripts tl; generated_transcripts tl]) as [t|] eqn:E.
  - left. exists t. apply find_in_dicts_picks, E.
  - right. apply find_in_dicts_no_track, E.
Qed.

Lemma select_transcript_run (tl : TranscriptList) (st : State) :
  select_transcript tl st =
  match find_in_dicts preferred_languages
          [manually_created_transcripts tl; generated_transcripts tl] with
  | Some t => (st, [], Return t)
  | None =>
      match find_in_dicts generated_languages [generated_transcripts tl] with
      | Some t => (st, [], Return t)
      | None => (st, [], Raised (NoTranscriptFound (tl_video_id tl) generated_languages))
      end
  end.
Proof.
  unfold select_transcript, try_except, find_transcript, find_generated_transcript,
    find_with, lift, ret, raise.
  destruct (find_in_dicts preferred_languages _); [reflexivity|].
  destruct (find_in_dicts generated_languages _); reflexivity.
Qed.

Lemma fetch_transcript_run (w : World) (video_id : str) (st : State) :
  fetch_transcript w video_id st =
  match list_transcripts w video_id with
  | Raise e => (st, [CallListTranscripts video_id], Raised e)
  | Ok tl =>
      match select_transcript tl st with
      | (_, _, Return t) =>
          (st, [CallListTranscripts video_id; CallFetch t],
           match fetch t with
           | Ok parts => Return (str_join (utf8 " ") (map item_text parts))
           | Raise e => Raised e
           end)
      | (_, _, Raised e) => (st, [CallListTranscripts video_id], Raised e)
      | (_, _, Rerun) => (st, [CallListTranscripts video_id], Rerun)
      end
  end.
Proof.
  unfold fetch_transcript, call, bind, emit, lift, ret, raise.
  destruct (list_transcripts w video_id) as [tl|e]; [|reflexivity].
  rewrite select_transcript_run.
  destruct (find_in_dicts preferred_languages _) as [t|].
  { destruct (fetch t); reflexivity. }
  destruct (find_in_dicts generated_languages _) as [t|]; [|reflexivity].
  destruct (fetch t); reflexivity.
Qed.

(** C1 (as amended): [fetch_transcript] returns the text of the track of
    the first language in [[ko, en, en-US, en-GB]] that has a track of
    either kind, the human-authored track of that language when there is
    one and its auto-generated track otherwise; the lookup of an
    auto-generated track in [[en, en-US, en-GB]] is reached only when none
    of the four languages has any track, and then fails with
    [NoTranscriptFound]; in particular a video whose only track is an
    auto-generated Korean one has that track picked. *)
Theorem fetch_transcript_selection (w : World) (video_id : str) (st : State)
    (tl : TranscriptList) :
  list_transcripts w video_id = Ok tl ->
  (forall t, picks tl preferred_languages t ->
     fetch_transcript w video_id st =
     (st, [CallListTranscripts video_id; CallFetch t],
      match fetch t with
      | Ok parts => Return (str_join (utf8 " ") (map item_text parts))
      | Raise e => Raised e
      end))
  /\ (no_track tl preferred_languages ->
      fetch_transcript w video_id st =
      (st, [CallListTranscripts video_id],
       Raised (NoTranscriptFound (tl_video_id tl) generated_languages)))
  /\ ((exists t, picks tl preferred_languages t) \/ no_track tl preferred_languages)
  /\ (forall t, manually_created_transcripts tl = ∅ ->
        generated_transcripts tl = {[ utf8 "ko" := t ]} ->
        picks tl preferred_languages t).
Proof.
  intros Hlist. rewrite fetch_transcript_run, Hlist, select_transcript_run.
  repeat split.
  - intros t Ht. apply find_in_dicts_picks in Ht. rewrite Ht. reflexivity.
  - intros Hno. pose proof (generated_fallback_fails tl Hno) as Hg.
    apply find_in_dicts_no_track in Hno. rewrite Hno, Hg. reflexivity.
  - apply picks_or_no_track.
  - intros t Hm Hg. apply picks_generated.
    + rewrite Hm. apply lookup_empty.
    + rewrite Hg. apply lookup_singleton_eq.
Qed.

Lemma fetch_transcript_selection_witness :
  fetch_transcript (world_of tl_manual_en) (utf8 "abcdEFGH12_") idle_state =
  (idle_state,
   [CallListTranscripts (utf8 "abcdEFGH12_"); CallFetch track_en_manual],
   Return (utf8 "Hello world this is news")).
Proof.
  destruct (fetch_transcript_selection (world_of tl_manual_en) (utf8 "abcdEFGH12_")
              idle_state tl_manual_en eq_refl) as (Hpick & _).
  apply (Hpick track_en_manual).
  apply picks_next; [reflexivity | reflexivity |].
  apply picks_manual. reflexivity.
Defined.

(** C1, counterexample.  For a video whose only track is an auto-generated
    Korean one [fetch_transcript] returns the text of that track; and for a
    video with a human-authored English track and an auto-generated Korean
    one it returns the auto-generated Korean text. *)
Lemma fetch_transcript_generated_korean :
  (manually_created_transcripts tl_generated_ko = ∅
   /\ generated_transcripts tl_generated_ko = {[ utf8 "ko" := track_ko_generated ]}
   /\ is_generated track_ko_generated = true
   /\ fetch_transcript (world_of tl_generated_ko) (utf8 "abcdEFGH12_") idle_state =
      (idle_state,
       [CallListTranscripts (utf8 "abcdEFGH12_"); CallFetch track_ko_generated],
       Return (utf8 "안녕하세요 뉴스입니다")))
  /\ (manually_created_transcripts tl_manual_en_generated_ko !! utf8 "en"
        = Some track_en_manual
      /\ is_generated track_en_manual = false
      /\ fetch_transcript (world_of tl_manual_en_generated_ko) (utf8 "abcdEFGH12_")
           idle_state =
         (idle_state,
          [CallListTranscripts (utf8 "abcdEFGH12_"); CallFetch track_ko_generated],
          Return (utf8 "안녕하세요 뉴스입니다"))).
Proof.
  repeat split; vm_compute; reflexivity.
Qed.

Lemma str_join_interleave (sep : str) (texts : list str) :
  str_join sep texts = concat (interleave sep texts).
Proof.
  induction texts as [|x [|y rest] IH]; [reflexivity | |].
  - simpl. rewrite app_nil_r. reflexivity.
  - change (str_join sep (x :: y :: rest)) with (x ++ sep ++ str_join sep (y :: rest)).
    change (interleave sep (x :: y :: rest)) with (x :: sep :: interleave sep (y :: rest)).
    rewrite IH. reflexivity.
Qed.

Lemma split_on_piece (sep : N) (x : str) : ~ In sep x -> split_on sep x = [x].
Proof.
  induction x as [|c x IH]; intros Hx; [reflexivity|].
  simpl. destruct (N.eqb_spec c sep) as [->|Hne].
  - exfalso. apply Hx. left. reflexivity.
  - rewrite IH; [reflexivity|]. intros Hin. apply Hx. right. exact Hin.
Qed.

Lemma split_on_app (sep : N) (x r : str) :
  ~ In sep x -> split_on sep (x ++ sep :: r) = x :: split_on sep r.
Proof.
  induction x as [|c x IH]; intros Hx.
  - simpl. rewrite N.eqb_refl. reflexivity.
  - simpl. destruct (N.eqb_spec c sep) as [->|Hne].
    + exfalso. apply Hx. left. reflexivity.
    + rewrite IH; [reflexivity|]. intros Hin. apply Hx. right. exact Hin.
Qed.

Lemma split_on_join (sep : N) (texts : list str) :
  texts <> [] -> Forall (fun x => ~ In sep x) texts ->
  split_on sep (str_join [sep] texts) = texts.
Proof.
  induction texts as [|x [|y rest] IH]; intros Hne Hall.
  - congruence.
  - apply split_on_piece. inversion Hall; assumption.
  - change (str_join [sep] (x :: y :: rest))
      with (x ++ sep :: str_join [sep] (y :: rest)).
    inversion Hall as [|? ? Hx Hrest]; subst.
    rewrite split_on_app by exact Hx. f_equal. apply IH; [discriminate | exact Hrest].
Qed.

Lemma utf8_space : utf8 " " = [32].
Proof. reflexivity. Qed.

(** C8: [fetch_transcript] returns the fragment texts of the selected
    track, in their order, with a single space between consecutive ones:
    the concatenation of the texts interleaved with the separator.  Nothing
    else of the fragments enters the result, and no fragment is dropped or
    merged: when no text holds a space, splitting the result at the spaces
    gives the texts back, repetitions included. *)
Theorem fetch_transcript_joins (w : World) (video_id : str) (st : State)
    (tl : TranscriptList) (t : Transcript) (parts : list Item) :
  list_transcripts w video_id = Ok tl ->
  select_transcript tl st = (st, [], Return t) ->
  fetch t = Ok parts ->
  fetch_transcript w video_id st =
    (st, [CallListTranscripts video_id; CallFetch t],
     Return (concat (interleave (utf8 " ") (map item_text parts))))
  /\ (parts <> [] -> Forall (fun p => ~ In 32 (item_text p)) parts ->
      split_on 32 (concat (interleave (utf8 " ") (map item_text parts)))
      = map item_text parts).
Proof.
  intros Hlist Hsel Hfetch. split.
  - rewrite fetch_transcript_run, Hlist, Hsel, Hfetch, str_join_interleave. reflexivity.
  - intros Hne Hall. rewrite <- str_join_interleave, utf8_space.
    apply split_on_join.
    + destruct parts; [congruence | discriminate].
    + clear -Hall. induction Hall; constructor; auto.
Qed.

Lemma fetch_transcript_joins_witness :
  fetch_transcript (world_of tl_generated_ko) (utf8 "abcdEFGH12_") idle_state =
    (idle_state,
     [CallListTranscripts (utf8 "abcdEFGH12_"); CallFetch track_ko_generated],
     Return (utf8 "안녕하세요 뉴스입니다"))
  /\ split_on 32 (utf8 "안녕하세요 뉴스입니다") = [utf8 "안녕하세요"; utf8 "뉴스입니다"].
Proof.
  destruct (fetch_transcript_joins (world_of tl_generated_ko) (utf8 "abcdEFGH12_")
              idle_state tl_generated_ko track_ko_generated
              [mkItem (utf8 "안녕하세요") 0 (3 # 2); mkItem (utf8 "뉴스입니다") (3 # 2) 2]
              eq_refl eq_refl eq_refl) as [Hrun Hsplit].
  split; [exact Hrun|].
  apply Hsplit; [discriminate|].
  repeat constructor; vm_compute; intuition discriminate.
Defined.

(** ** C10: the shape of the speech response *)

Lemma create_chat_completion_run (w : World) (transcript_text : str) (st : State) :
  create_chat_completion w transcript_text st =
  (st, chat_trace w (openai_api_key st) transcript_text,
   outcome_of (chat_answer w (openai_api_key st) transcript_text)).
Proof.
  unfold create_chat_completion, chat_trace, chat_call, chat_answer, call, bind, gets,
    emit, lift, ret, raise, outcome_of.
  destruct (has_ChatCompletion w).
  - destruct (ChatCompletion_create w _); reflexivity.
  - destruct (OpenAI w (openai_api_key st)) as [[]|e]; [|reflexivity].
    destruct (client_chat_completions_create w _); reflexivity.
Qed.

Lemma chat_answer_trace (w : World) (key : option str) (transcript_text : str)
    (sc : option str) :
  chat_answer w key transcript_text = Ok sc ->
  chat_trace w key transcript_text = [chat_call w key transcript_text].
Proof.
  unfold chat_answer, chat_trace. destruct (has_ChatCompletion w); [reflexivity|].
  destruct (OpenAI w key); [reflexivity | discriminate].
Qed.

Lemma speech_answer_trace (w : World) (key : option str) (sc : option str)
    (audio_response : pyobj) :
  speech_answer w key sc = Ok audio_response ->
  speech_trace w key sc = [speech_call w key sc].
Proof.
  unfold speech_answer, speech_trace. destruct (has_audio_speech w); [reflexivity|].
  destruct (OpenAI w key); [reflexivity | discriminate].
Qed.

Lemma create_tts_audio_run (w : World) (sc : option str) (st : State) :
  create_tts_audio w sc st =
  (st, speech_trace w (openai_api_key st) sc,
   outcome_of (synthesis w (openai_api_key st) sc)).
Proof.
  unfold create_tts_audio, synthesis, speech_trace, speech_call, speech_answer, call,
    bind, gets, emit, lift, ret, raise, outcome_of.
  destruct (has_audio_speech w).
  - destruct (audio_speech_create w _) as [resp|e]; [|reflexivity].
    destruct (normalize_audio resp); reflexivity.
  - destruct (OpenAI w (openai_api_key st)) as [[]|e]; [|reflexivity].
    destruct (client_audio_speech_create w _) as [resp|e]; [|reflexivity].
    destruct (normalize_audio resp); reflexivity.
Qed.

(** C10: [create_tts_audio] looks for [read] before [content].  When the
    speech service answers a response that exposes [read], the result is
    that of [read()], whether or not [content] is there too; when the
    response exposes only [content], the result is that attribute; and when
    it exposes neither, the result is the response itself and nothing is
    raised. *)
Theorem create_tts_audio_normalizes (w : World) (sc : option str) (st : State)
    (audio_response : pyobj) :
  speech_answer w (openai_api_key st) sc = Ok audio_response ->
  (forall r c, audio_response = PyObject (Some r) c ->
     create_tts_audio w sc st =
     (st, [speech_call w (openai_api_key st) sc], outcome_of r))
  /\ (forall c, audio_response = PyObject None (Some c) ->
        create_tts_audio w sc st =
        (st, [speech_call w (openai_api_key st) sc], Return c))
  /\ (audio_response = PyObject None None \/ audio_response = PyNone
      \/ (exists b, audio_response = PyBytes b) ->
      create_tts_audio w sc st =
      (st, [speech_call w (openai_api_key st) sc], Return audio_response)).
Proof.
  intros Hans. rewrite create_tts_audio_run, (speech_answer_trace _ _ _ _ Hans).
  unfold synthesis. rewrite Hans.
  repeat split.
  - intros r c ->. reflexivity.
  - intros c ->. reflexivity.
  - intros [->|[->|[b ->]]]; reflexivity.
Qed.

Lemma create_tts_audio_normalizes_witness :
  create_tts_audio (world_of tl_manual_en) (Some example_script) idle_state =
  (idle_state,
   [speech_call (world_of tl_manual_en) None (Some example_script)],
   Return (PyBytes example_audio)).
Proof.
  destruct (create_tts_audio_normalizes (world_of tl_manual_en) (Some example_script)
              idle_state
              (PyObject (Some (Ok (PyBytes example_audio))) (Some (PyBytes [])))
              eq_refl) as (Hread & _).
  apply (Hread (Ok (PyBytes example_audio)) (Some (PyBytes []))). reflexivity.
Defined.

(** ** The runs of the script *)

Lemma display_run (st : State) :
  display st = (st, shown (session_state st), display_result (session_state st)).
Proof.
  unfold display, shown, display_result, st_audio, bind, gets, emit, ret, raise.
  destruct (script (session_state st)) as [[|c t]|];
    destruct (audio (session_state st)) as [|[|b bs]|r c']; reflexivity.
Qed.

Lemma fetch_transcript_state (w : World) (video_id : str) (st : State) :
  fst (fst (fetch_transcript w video_id st)) = st.
Proof.
  rewrite fetch_transcript_run.
  destruct (list_transcripts w video_id) as [tl|e]; [|reflexivity].
  destruct (select_transcript tl st) as [[st' tr] [t|e|]]; reflexivity.
Qed.

Lemma fetch_transcript_calls (w : World) (video_id : str) (st : State) :
  forallb is_transcript_call (snd (fst (fetch_transcript w video_id st))) = true.
Proof.
  rewrite fetch_transcript_run.
  destruct (list_transcripts w video_id) as [tl|e]; [|reflexivity].
  destruct (select_transcript tl st) as [[st' tr] [t|e|]]; reflexivity.
Qed.

(** The body of the [try], stage by stage. *)
Lemma pipeline_run (w : World) (video_id : str) (st : State) :
  pipeline w video_id st =
  match fetch_transcript w video_id st with
  | (_, trf, Return transcript_text) =>
      match chat_answer w (openai_api_key st) transcript_text with
      | Ok sc =>
          match synthesis w (openai_api_key st) sc with
          | Ok a =>
              (with_audio a (with_script sc st),
               trf ++ chat_trace w (openai_api_key st) transcript_text
                   ++ speech_trace w (openai_api_key st) sc,
               Return tt)
          | Raise e =>
              (with_script sc st,
               trf ++ chat_trace w (openai_api_key st) transcript_text
                   ++ speech_trace w (openai_api_key st) sc,
               Raised e)
          end
      | Raise e =>
          (st, trf ++ chat_trace w (openai_api_key st) transcript_text, Raised e)
      end
  | (_, trf, Raised e) => (st, trf, Raised e)
  | (_, trf, Rerun) => (st, trf, Rerun)
  end.
Proof.
  unfold pipeline. unfold bind at 1.
  pose proof (fetch_transcript_state w video_id st) as Hst.
  destruct (fetch_transcript w video_id st) as [[st1 trf] [text|e|]];
    simpl in Hst; subst st1; try reflexivity.
  unfold bind at 1. rewrite create_chat_completion_run.
  destruct (chat_answer w (openai_api_key st) text) as [sc|e]; simpl outcome_of;
    [|reflexivity].
  unfold bind, set_script, set_audio, modify, gets.
  rewrite create_tts_audio_run. cbn [openai_api_key session_state script].
  destruct (synthesis w (openai_api_key st) sc) as [a|e]; simpl outcome_of;
    rewrite ?app_nil_r; reflexivity.
Qed.

Lemma extract_video_id_nonempty (url id : str) :
  extract_video_id url = Some id -> exists c t, id = c :: t.
Proof.
  intros H. apply extract_video_id_some in H as (lit & pre & Hs & _).
  destruct Hs as (post & _ & [Hlen _]%is_token_spec).
  destruct id as [|c t]; [discriminate | eauto].
Qed.

Lemma brew_block_run (w : World) (key url id : str) (st : State) :
  str_empty key = false -> str_empty url = false ->
  extract_video_id url = Some id ->
  brew_block w key url st =
  try_except (pipeline w id) (on_error w)
    {| session_state := session_state st; openai_api_key := Some key |}.
Proof.
  intros Hkey Hurl Hid. unfold brew_block. rewrite Hkey, Hurl, Hid.
  destruct (extract_video_id_nonempty _ _ Hid) as (c & t & ->).
  unfold bind, set_openai_api_key, modify.
  destruct (try_except _ _ _) as [[st2 tr2] o]. reflexivity.
Qed.

Lemma app_run_brew (w : World) (inp : Inputs) (st : State) :
  reset inp = false -> brew inp = true ->
  app_run w inp st =
  match brew_block w (api_key inp) (typed_url inp) (at_start inp st) with
  | (st1, tr1, Return _) =>
      (st1, tr1 ++ shown (session_state st1), display_result (session_state st1))
  | (st1, tr1, Raised e) => (st1, tr1, Raised e)
  | (st1, tr1, Rerun) => (st1, tr1, Rerun)
  end.
Proof.
  intros Hreset Hbrew. unfold app_run. rewrite Hreset, Hbrew.
  unfold bind, set_video_url, modify, ret, gets.
  change {| session_state :=
              {| script := script (session_state st);
                 audio := audio (session_state st);
                 video_url := typed_url inp |};
            openai_api_key := openai_api_key st |} with (at_start inp st).
  cbn [video_url session_state at_start].
  destruct (brew_block w (api_key inp) (typed_url inp) (at_start inp st))
    as [[st1 tr1] [[]|e|]]; try reflexivity.
  rewrite display_run. reflexivity.
Qed.

Lemma remote_calls_shown (ss : SessionState) : remote_calls (shown ss) = [].
Proof.
  unfold shown, remote_calls.
  destruct (script ss) as [[|c t]|]; destruct (audio ss) as [|[|b bs]|r c'];
    reflexivity.
Qed.

Lemma extract_video_id_empty : extract_video_id [] = None.
Proof. reflexivity. Qed.

(** ** C4: the precondition checks *)

Lemma extract_video_id_url_nonempty (url id : str) :
  extract_video_id url = Some id -> str_empty url = false.
Proof.
  destruct url; [rewrite extract_video_id_empty; discriminate | reflexivity].
Qed.

(** A [brew] that passes the three checks runs the pipeline; an exception
    of the pipeline is reported and the run goes on to the display. *)
Lemma app_run_pipeline (w : World) (inp : Inputs) (st : State) (id : str) :
  brew inp = true -> reset inp = false ->
  str_empty (api_key inp) = false ->
  extract_video_id (typed_url inp) = Some id ->
  app_run w inp st =
  match pipeline w id (at_brew inp st) with
  | (st1, tr, Return _) =>
      (st1, tr ++ shown (session_state st1), display_result (session_state st1))
  | (st1, tr, Raised e) =>
      (st1, (tr ++ [StError (error_message w e)]) ++ shown (session_state st1),
       display_result (session_state st1))
  | (st1, tr, Rerun) => (st1, tr, Rerun)
  end.
Proof.
  intros Hbrew Hreset Hkey Hid.
  rewrite (app_run_brew w inp st Hreset Hbrew).
  rewrite (brew_block_run w _ _ id _ Hkey (extract_video_id_url_nonempty _ _ Hid) Hid).
  change {| session_state := session_state (at_start inp st);
            openai_api_key := Some (api_key inp) |} with (at_brew inp st).
  unfold try_except.
  destruct (pipeline w id (at_brew inp st)) as [[st1 tr] [[]|e|]]; try reflexivity.
  unfold on_error, error_message, emit.
  destruct (is_transcript_error e); reflexivity.
Qed.

Lemma error_message_category (w : World) (e : exn) :
  error_message w e = category_message w e.
Proof.
  destruct e; cbv beta iota delta [error_message category_message is_transcript_error];
    reflexivity.
Qed.

Lemma fetch_transcript_first_call (w : World) (video_id : str) (st : State) :
  exists tr,
    snd (fst (fetch_transcript w video_id st)) = CallListTranscripts video_id :: tr.
Proof.
  rewrite fetch_transcript_run.
  destruct (list_transcripts w video_id) as [tl|e]; [|eexists; reflexivity].
  destruct (select_transcript tl st) as [[st' tr] [t|e|]]; eexists; reflexivity.
Qed.

(** C4 (as amended): a [brew] with an empty key, an empty URL or a URL
    from which [extract_video_id] extracts nothing (it returns [None])
    makes no remote call: the run reports the validation message of the
    first check that fails and then only puts on the page what the session
    already held; all three checks come before any remote call.  A [brew]
    whose key is not empty and whose URL yields an identifier, whatever
    the characters of that identifier, passes the checks: its first event
    is the listing call for that identifier. *)
Theorem brew_validation_no_remote_call (w : World) (inp : Inputs) (st : State) :
  brew inp = true -> reset inp = false ->
  (str_empty (api_key inp) = true \/ str_empty (typed_url inp) = true
     \/ extract_video_id (typed_url inp) = None ->
   exists msg st',
     app_run w inp st =
       (st', StError msg :: shown (session_state st),
        display_result (session_state st))
     /\ In msg validation_messages
     /\ msg = (if str_empty (api_key inp) then msg_need_key
               else if str_empty (typed_url inp) then msg_need_url
               else msg_invalid_url)
     /\ remote_calls (StError msg :: shown (session_state st)) = []
     /\ session_state st' = session_state (at_start inp st))
  /\ (forall id,
        str_empty (api_key inp) = false ->
        extract_video_id (typed_url inp) = Some id ->
        exists tr, snd (fst (app_run w inp st)) = CallListTranscripts id :: tr).
Proof.
  intros Hbrew Hreset. split.
  - intros Hbad. rewrite (app_run_brew w inp st Hreset Hbrew).
    unfold brew_block.
    destruct (str_empty (api_key inp)) eqn:Hkey.
    { exists msg_need_key, (at_start inp st). unfold emit.
      repeat split; [left; reflexivity | apply remote_calls_shown]. }
    destruct (str_empty (typed_url inp)) eqn:Hurl.
    { exists msg_need_url, (at_start inp st). unfold emit.
      repeat split; [right; left; reflexivity | apply remote_calls_shown]. }
    destruct Hbad as [Hbad|[Hbad|Hbad]]; try discriminate.
    rewrite Hbad. unfold bind, set_openai_api_key, modify, emit.
    exists msg_invalid_url, (at_brew inp st).
    repeat split; [right; right; left; reflexivity | apply remote_calls_shown].
  - intros id Hkey Hid.
    rewrite (app_run_pipeline w inp st id Hbrew Hreset Hkey Hid), pipeline_run.
    destruct (fetch_transcript_first_call w id (at_brew inp st)) as (tr & Htr).
    destruct (fetch_transcript w id (at_brew inp st)) as [[st1 trf] [text|e|]];
      cbn [fst snd] in Htr; subst trf.
    + destruct (chat_answer w _ text) as [sc|e];
        [destruct (synthesis w _ sc) as [a|e]|]; eexists; reflexivity.
    + eexists; reflexivity.
    + eexists; reflexivity.
Qed.

Lemma brew_validation_no_remote_call_witness :
  exists msg st',
    app_run (world_of tl_manual_en)
      {| api_key := []; typed_url := url_watch; brew := true; reset := false |}
      idle_state
    = (st', StError msg :: shown (session_state idle_state),
       display_result (session_state idle_state))
    /\ In msg validation_messages.
Proof.
  destruct (brew_validation_no_remote_call (world_of tl_manual_en)
              {| api_key := []; typed_url := url_watch; brew := true; reset := false |}
              idle_state eq_refl eq_refl) as [Hbad _].
  destruct (Hbad (or_introl eq_refl)) as (msg & st' & Hrun & Hin & _).
  exists msg, st'. split; [exact Hrun | exact Hin].
Defined.

(** C4, counterexample.  No identifier of the class [[A-Za-z0-9_-]{11}]
    can be extracted from the watch link with eleven Hangul syllables: it
    holds no such token after any of the three texts.  Yet a [brew] with
    that URL and a key passes the checks: no validation message is shown,
    and the four remote calls are made, the first one the listing for the
    eleven syllables. *)
Lemma brew_hangul_runs_pipeline :
  ~ (exists lit pre X post,
       url_hangul = pre ++ lit ++ X ++ post /\ is_urlsafe_token X = true)
  /\ hd_error (snd (fst (app_run (world_of tl_manual_en)
                           {| api_key := utf8 "sk-test"; typed_url := url_hangul;
                              brew := true; reset := false |}
                           idle_state)))
     = Some (CallListTranscripts id_hangul)
  /\ stages (snd (fst (app_run (world_of tl_manual_en)
                         {| api_key := utf8 "sk-test"; typed_url := url_hangul;
                            brew := true; reset := false |}
                         idle_state)))
     = pipeline_order
  /\ errors (snd (fst (app_run (world_of tl_manual_en)
                         {| api_key := utf8 "sk-test"; typed_url := url_hangul;
                            brew := true; reset := false |}
                         idle_state)))
     = [].
Proof.
  split.
  - intros (lit & pre & X & post & Heq & Htok).
    unfold is_urlsafe_token in Htok. apply andb_true_iff in Htok as [Hlen HX].
    apply Nat.eqb_eq in Hlen.
    pose proof (has_run_window is_urlsafe (pre ++ lit) X post HX) as Hw.
    rewrite <- app_assoc, <- Heq, Hlen in Hw. vm_compute in Hw. discriminate.
  - repeat split; vm_compute; reflexivity.
Qed.



(** ** C5: the stages hand their results on unchanged *)

(** C5: in a run in which the three stages succeed, the speech service is
    called with exactly the script the chat service answered, which is
    also the script the session keeps, and the audio the session keeps is
    what the speech service answered (the result of [read()], the
    [content] attribute or the response itself, as [normalize_audio]
    finds it), put there as it is.  The run then shows the script and
    plays the audio; when the audio kept is an object rather than bytes,
    [st.audio] raises at that point, the session keeping both. *)
Theorem brew_success_passes_through (w : World) (inp : Inputs) (st : State)
    (id transcript_text : str) (trf : list event) (sc : option str)
    (audio_response a : pyobj) :
  brew inp = true -> reset inp = false ->
  str_empty (api_key inp) = false ->
  extract_video_id (typed_url inp) = Some id ->
  fetch_transcript w id (at_brew inp st) = (at_brew inp st, trf, Return transcript_text) ->
  chat_answer w (Some (api_key inp)) transcript_text = Ok sc ->
  speech_answer w (Some (api_key inp)) sc = Ok audio_response ->
  normalize_audio audio_response = Ok a ->
  app_run w inp st =
    (with_audio a (with_script sc (at_brew inp st)),
     (trf ++ [chat_call w (Some (api_key inp)) transcript_text;
              CallSpeech (has_audio_speech w) (speech_request (Some (api_key inp)) sc)])
     ++ shown {| script := sc; audio := a; video_url := typed_url inp |},
     display_result {| script := sc; audio := a; video_url := typed_url inp |})
  /\ speech_input (speech_request (Some (api_key inp)) sc) = sc
  /\ script (session_state (with_audio a (with_script sc (at_brew inp st)))) = sc
  /\ audio (session_state (with_audio a (with_script sc (at_brew inp st)))) = a.
Proof.
  intros Hbrew Hreset Hkey Hid Hfetch Hchat Hspeech Hnorm.
  repeat split.
  rewrite (app_run_pipeline w inp st id Hbrew Hreset Hkey Hid), pipeline_run, Hfetch.
  cbn [openai_api_key at_brew]. rewrite Hchat. unfold synthesis.
  rewrite Hspeech, Hnorm.
  rewrite (chat_answer_trace _ _ _ _ Hchat), (speech_answer_trace _ _ _ _ Hspeech).
  reflexivity.
Qed.

Lemma brew_success_passes_through_witness :
  app_run (world_of tl_manual_en) brew_inputs idle_state =
    (with_audio (PyBytes example_audio)
       (with_script (Some example_script) (at_brew brew_inputs idle_state)),
     ([CallListTranscripts (utf8 "abcdEFGH12_"); CallFetch track_en_manual]
      ++ [chat_call (world_of tl_manual_en) (Some (api_key brew_inputs))
            (utf8 "Hello world this is news");
          CallSpeech true
            (speech_request (Some (api_key brew_inputs)) (Some example_script))])
     ++ shown {| script := Some example_script;
                 audio := PyBytes example_audio;
                 video_url := typed_url brew_inputs |},
     display_result {| script := Some example_script;
                       audio := PyBytes example_audio;
                       video_url := typed_url brew_inputs |}).
Proof.
  apply (brew_success_passes_through (world_of tl_manual_en) brew_inputs idle_state
           (utf8 "abcdEFGH12_") (utf8 "Hello world this is news")
           [CallListTranscripts (utf8 "abcdEFGH12_"); CallFetch track_en_manual]
           (Some example_script)
           (PyObject (Some (Ok (PyBytes example_audio))) (Some (PyBytes [])))
           (PyBytes example_audio));
    vm_compute; reflexivity.
Defined.

(** ** C6: a stage that fails *)

Lemma messages_distinct (w : World) (e e' : exn) :
  msg_transcript w e <> msg_generic w e'.
Proof.
  intros H. apply (f_equal (hd 0)) in H. vm_compute in H. discriminate.
Qed.

(** C6: when a stage of the pipeline raises, the stages after it are not
    run, the exception is reported with the message of its category, and
    what the stages before it stored stays.  The message is the transcript
    message when the exception is [VideoUnavailable], [TranscriptsDisabled]
    or [NoTranscriptFound] and the generic message for every other
    exception, and the two never coincide.  When the synthesis raises
    after the chat service has answered, the session keeps the composed
    script, which is then shown, and the audio is the one the session held
    before.  The calls of a run are those of the stages reached: of the
    failing stage itself there is no call when it raised before making
    one. *)
Theorem brew_failure_aborts (w : World) (inp : Inputs) (st : State) (id : str) :
  brew inp = true -> reset inp = false ->
  str_empty (api_key inp) = false ->
  extract_video_id (typed_url inp) = Some id ->
  (forall trf e,
     fetch_transcript w id (at_brew inp st) = (at_brew inp st, trf, Raised e) ->
     app_run w inp st =
       (at_brew inp st,
        (trf ++ [StError (category_message w e)]) ++ shown (session_state st),
        display_result (session_state st))
     /\ forallb is_transcript_call trf = true)
  /\ (forall trf transcript_text e,
        fetch_transcript w id (at_brew inp st)
          = (at_brew inp st, trf, Return transcript_text) ->
        chat_answer w (Some (api_key inp)) transcript_text = Raise e ->
        app_run w inp st =
          (at_brew inp st,
           ((trf ++ chat_trace w (Some (api_key inp)) transcript_text)
            ++ [StError (category_message w e)])
           ++ shown (session_state st),
           display_result (session_state st)))
  /\ (forall trf transcript_text sc e,
        fetch_transcript w id (at_brew inp st)
          = (at_brew inp st, trf, Return transcript_text) ->
        chat_answer w (Some (api_key inp)) transcript_text = Ok sc ->
        synthesis w (Some (api_key inp)) sc = Raise e ->
        app_run w inp st =
          (with_script sc (at_brew inp st),
           ((trf ++ [chat_call w (Some (api_key inp)) transcript_text]
                 ++ speech_trace w (Some (api_key inp)) sc)
            ++ [StError (category_message w e)])
           ++ shown {| script := sc;
                       audio := audio (session_state st);
                       video_url := typed_url inp |},
           display_result {| script := sc;
                             audio := audio (session_state st);
                             video_url := typed_url inp |})
        /\ script (session_state (with_script sc (at_brew inp st))) = sc
        /\ audio (session_state (with_script sc (at_brew inp st)))
           = audio (session_state st))
  /\ (forall e e', msg_transcript w e <> msg_generic w e')
  /\ (forall key transcript_text sc,
        Forall (fun ev => ev = chat_call w key transcript_text)
               (chat_trace w key transcript_text)
        /\ Forall (fun ev => ev = speech_call w key sc) (speech_trace w key sc)).
Proof.
  intros Hbrew Hreset Hkey Hid.
  pose proof (app_run_pipeline w inp st id Hbrew Hreset Hkey Hid) as Hrun.
  rewrite pipeline_run in Hrun. cbn [openai_api_key at_brew] in Hrun.
  change {| session_state :=
              {| script := script (session_state st);
                 audio := audio (session_state st);
                 video_url := typed_url inp |};
            openai_api_key := Some (api_key inp) |} with (at_brew inp st) in Hrun.
  split; [|split; [|split; [|split]]].
  - intros trf e Hfetch. rewrite Hfetch, error_message_category in Hrun.
    split; [exact Hrun|].
    pose proof (fetch_transcript_calls w id (at_brew inp st)) as Hcalls.
    rewrite Hfetch in Hcalls. exact Hcalls.
  - intros trf text e Hfetch Hchat.
    rewrite Hfetch, Hchat, error_message_category in Hrun. exact Hrun.
  - intros trf text sc e Hfetch Hchat Hsyn.
    rewrite Hfetch, Hchat, Hsyn, error_message_category in Hrun.
    rewrite (chat_answer_trace _ _ _ _ Hchat) in Hrun. repeat split. exact Hrun.
  - intros e e'. apply messages_distinct.
  - intros key text sc. unfold chat_trace, speech_trace. split.
    + destruct (has_ChatCompletion w); [|destruct (OpenAI w key)];
        repeat constructor.
    + destruct (has_audio_speech w); [|destruct (OpenAI w key)];
        repeat constructor.
Qed.

Lemma brew_failure_aborts_witness :
  app_run world_captions_disabled brew_inputs idle_state =
    (at_brew brew_inputs idle_state,
     ([CallListTranscripts (utf8 "abcdEFGH12_")]
      ++ [StError (category_message world_captions_disabled
                     (TranscriptsDisabled (utf8 "abcdEFGH12_")))])
     ++ shown (session_state idle_state),
     display_result (session_state idle_state))
  /\ app_run (world_speech_down tl_manual_en) brew_inputs idle_state =
    (with_script (Some example_script) (at_brew brew_inputs idle_state),
     (([CallListTranscripts (utf8 "abcdEFGH12_"); CallFetch track_en_manual]
       ++ [chat_call (world_speech_down tl_manual_en) (Some (api_key brew_inputs))
             (utf8 "Hello world this is news")]
       ++ speech_trace (world_speech_down tl_manual_en) (Some (api_key brew_inputs))
            (Some example_script))
      ++ [StError (category_message (world_speech_down tl_manual_en)
                     (OtherException (utf8 "503")))])
     ++ shown {| script := Some example_script;
                 audio := audio (session_state idle_state);
                 video_url := typed_url brew_inputs |},
     display_result {| script := Some example_script;
                       audio := audio (session_state idle_state);
                       video_url := typed_url brew_inputs |}).
Proof.
  assert (extract_video_id (typed_url brew_inputs) = Some (utf8 "abcdEFGH12_")) as Hid
    by (vm_compute; reflexivity).
  split.
  - destruct (brew_failure_aborts world_captions_disabled brew_inputs idle_state
                (utf8 "abcdEFGH12_") eq_refl eq_refl eq_refl Hid)
      as (Hfetch & _).
    apply (Hfetch [CallListTranscripts (utf8 "abcdEFGH12_")]
             (TranscriptsDisabled (utf8 "abcdEFGH12_"))).
    vm_compute. reflexivity.
  - destruct (brew_failure_aborts (world_speech_down tl_manual_en) brew_inputs
                idle_state (utf8 "abcdEFGH12_") eq_refl eq_refl eq_refl Hid)
      as (_ & _ & Hsyn & _).
    apply (Hsyn [CallListTranscripts (utf8 "abcdEFGH12_"); CallFetch track_en_manual]
             (utf8 "Hello world this is news") (Some example_script)
             (OtherException (utf8 "503")));
      vm_compute; reflexivity.
Defined.

(** ** C7: reset *)

(** C7: pressing Re-brew in any state of the session, in particular after
    a [brew] that stored a script and an audio, leaves the script and the
    audio unset and the URL empty, so that no identifier is extracted from
    it: the session is the one no run has written to, and the rerun that
    [st.rerun()] starts makes no call and shows nothing. *)
Theorem reset_clears (w : World) (key url : str) (b : bool) (st : State) :
  interact w {| api_key := key; typed_url := url; brew := b; reset := true |} st =
    ({| session_state := fresh_session; openai_api_key := openai_api_key st |},
     [StRerun], Return tt)
  /\ script fresh_session = None
  /\ audio fresh_session = PyNone
  /\ video_url fresh_session = []
  /\ extract_video_id (video_url fresh_session) = None
  /\ shown fresh_session = [].
Proof.
  repeat split.
Qed.

(** A [brew] that succeeds, then Re-brew. *)
Example brew_then_reset :
  exists st1 tr1,
    app_run (world_of tl_manual_en) brew_inputs idle_state = (st1, tr1, Return tt)
    /\ script (session_state st1) = Some example_script
    /\ audio (session_state st1) = PyBytes example_audio
    /\ video_url (session_state st1) = url_watch
    /\ extract_video_id (video_url (session_state st1)) = Some (utf8 "abcdEFGH12_")
    /\ exists st2,
         interact (world_of tl_manual_en)
           {| api_key := utf8 "sk-test"; typed_url := url_watch;
              brew := false; reset := true |} st1
         = (st2, [StRerun], Return tt)
         /\ session_state st2 = fresh_session.
Proof.
  eexists _, _. split; [vm_compute; reflexivity|].
  repeat split; try (vm_compute; reflexivity).
  eexists. split; vm_compute; reflexivity.
Qed.

(** * Further properties *)

(** ** [extract_video_id] on the usual links *)

Lemma has_shape_length (lit url : str) :
  has_shape lit url -> (length lit + 11 <= length url)%nat.
Proof.
  intros (pre & X & post & -> & [Hlen _]%is_token_spec).
  rewrite !length_app. lia.
Qed.

Lemma has_shape_context (lit url a b : str) :
  has_shape lit url -> has_shape lit (a ++ url ++ b).
Proof.
  intros (pre & X & post & -> & Htok).
  exists (a ++ pre), X, (post ++ b). split; [|exact Htok].
  rewrite <- !app_assoc. reflexivity.
Qed.

Lemma may_start_false (lit known rest tail : str) :
  may_start lit known = false -> known ++ rest <> lit ++ tail.
Proof.
  revert known. induction lit as [|c lit IH]; intros [|k known] H; try discriminate.
  simpl in H. simpl. intros Heq. injection Heq as -> Heq.
  rewrite N.eqb_refl in H. simpl in H. exact (IH known H Heq).
Qed.

Lemma cannot_start_in_spec (lit P tail pre' X' : str) :
  cannot_start_in lit P = true ->
  shape_at lit (P ++ tail) pre' X' -> (length P <= length pre')%nat.
Proof.
  intros Hchk (post' & Heq & _).
  destruct (Nat.le_gt_cases (length P) (length pre')) as [Hle|Hlt]; [exact Hle|].
  exfalso. unfold cannot_start_in in Hchk. rewrite forallb_forall in Hchk.
  assert (may_start lit (drop (length pre') P) = false) as Hno.
  { apply negb_true_iff, Hchk, in_seq. lia. }
  apply (f_equal (drop (length pre'))) in Heq.
  rewrite drop_app_le, drop_app_length in Heq by lia.
  exact (may_start_false _ _ _ _ Hno Heq).
Qed.

(** X1: the watch link.  Whatever precedes the first [v=] (as long as it
    holds no [=]) and whatever follows the 11 characters, the identifier
    extracted is the 11 characters right after that [v=]. *)
Theorem extract_video_id_watch_link (P X post : str) :
  ~ In 61 P -> is_token X = true ->
  extract_video_id (P ++ lit_v ++ X ++ post) = Some X.
Proof.
  intros HP Htok. apply extract_video_id_some. exists lit_v, P.
  split; [exists post; auto|]. split; [|left; reflexivity].
  intros pre' X' (post' & Heq & _).
  destruct (Nat.le_gt_cases (length P) (length pre')) as [Hle|Hlt]; [exact Hle|].
  exfalso. apply (f_equal (fun l => nth_error l (S (length pre')))) in Heq.
  rewrite (nth_error_app2 pre') in Heq by lia.
  replace (S (length pre') - length pre')%nat with 1%nat in Heq by lia.
  change (nth_error (lit_v ++ X' ++ post') 1) with (Some 61) in Heq.
  destruct (Nat.eq_dec (S (length pre')) (length P)) as [He|Hne].
  - rewrite nth_error_app2, He, Nat.sub_diag in Heq by lia. discriminate Heq.
  - rewrite nth_error_app1 in Heq by lia. apply nth_error_In in Heq. auto.
Qed.

Lemma extract_video_id_watch_link_witness :
  extract_video_id
    (utf8 "https://www.youtube.com/watch?" ++ lit_v ++ utf8 "abcdEFGH12_"
     ++ utf8 "&list=PL123&v=ZZZZZZZZZZZ")
  = Some (utf8 "abcdEFGH12_").
Proof.
  apply (extract_video_id_watch_link (utf8 "https://www.youtube.com/watch?")
           (utf8 "abcdEFGH12_") (utf8 "&list=PL123&v=ZZZZZZZZZZZ")).
  - vm_compute. intuition discriminate.
  - vm_compute. reflexivity.
Defined.

Lemma shape_after_prefix (lit Q tail : str) :
  cannot_start_in lit Q = true -> has_shape lit (Q ++ tail) -> has_shape lit tail.
Proof.
  intros Hchk (pre' & X' & Hs).
  pose proof (cannot_start_in_spec lit Q tail pre' X' Hchk Hs) as Hlen.
  destruct Hs as (post' & Heq & Htok).
  apply (f_equal (drop (length Q))) in Heq.
  rewrite drop_app_length in Heq.
  rewrite <- (take_drop (length Q) pre'), <- app_assoc, drop_app_length' in Heq
    by (rewrite length_take; lia).
  exists (drop (length Q) pre'), X', post'. split; [exact Heq | exact Htok].
Qed.

Lemma extract_after_prefix (lit P X post : str) :
  is_token X = true -> cannot_start_in lit P = true ->
  no_earlier_pattern lit (P ++ lit ++ X ++ post) ->
  extract_video_id (P ++ lit ++ X ++ post) = Some X.
Proof.
  intros Htok Hchk Hno. apply extract_video_id_some. exists lit, P.
  split; [exists post; auto|]. split; [|exact Hno].
  intros pre' X' Hs. exact (cannot_start_in_spec lit P _ pre' X' Hchk Hs).
Qed.

(** X2: the short link and the shorts link.  For every 11-character token
    [X], [https://youtu.be/X] followed by any text yields [X] provided [X]
    and that text together hold no [v=] shape, and
    [https://www.youtube.com/shorts/X] followed by any text yields [X]
    provided they hold neither a [v=] nor a [youtu.be/] shape. *)
Theorem extract_video_id_short_links (X post : str) :
  is_token X = true -> ~ has_shape lit_v (X ++ post) ->
  extract_video_id (utf8 "https://youtu.be/" ++ X ++ post) = Some X
  /\ (~ has_shape lit_youtu_be (X ++ post) ->
      extract_video_id (utf8 "https://www.youtube.com/shorts/" ++ X ++ post) = Some X).
Proof.
  intros Htok Hv. split.
  - change (utf8 "https://youtu.be/" ++ X ++ post)
      with (utf8 "https://" ++ lit_youtu_be ++ X ++ post).
    apply extract_after_prefix; [exact Htok | vm_compute; reflexivity |].
    right. left. split; [reflexivity|]. intros Hs. apply Hv.
    apply (shape_after_prefix lit_v (utf8 "https://youtu.be/"));
      [vm_compute; reflexivity | exact Hs].
  - intros Hy.
    change (utf8 "https://www.youtube.com/shorts/" ++ X ++ post)
      with (utf8 "https://www.youtube.com/" ++ lit_shorts ++ X ++ post).
    apply extract_after_prefix; [exact Htok | vm_compute; reflexivity |].
    right. right. split; [reflexivity|]. split; intros Hs.
    + apply Hv. apply (shape_after_prefix lit_v (utf8 "https://www.youtube.com/shorts/"));
        [vm_compute; reflexivity | exact Hs].
    + apply Hy.
      apply (shape_after_prefix lit_youtu_be (utf8 "https://www.youtube.com/shorts/"));
        [vm_compute; reflexivity | exact Hs].
Qed.

Lemma extract_video_id_short_links_witness :
  extract_video_id (utf8 "https://youtu.be/" ++ utf8 "abcdEFGH12_" ++ utf8 "?t=42")
  = Some (utf8 "abcdEFGH12_").
Proof.
  assert (is_token (utf8 "abcdEFGH12_") = true) as Htok by (vm_compute; reflexivity).
  assert (~ has_shape lit_v (utf8 "abcdEFGH12_" ++ utf8 "?t=42")) as Hv
    by (apply re_search_id_none; vm_compute; reflexivity).
  destruct (extract_video_id_short_links (utf8 "abcdEFGH12_") (utf8 "?t=42") Htok Hv)
    as [Hshort _].
  exact Hshort.
Defined.

(** X3: a URL shorter than 13 characters, the empty one included, yields
    no identifier; 13 is the length of the shortest match, [v=] and 11
    characters. *)
Theorem extract_video_id_short_url (url : str) :
  (length url < 13)%nat -> extract_video_id url = None.
Proof.
  intros Hlen. apply extract_video_id_none.
  repeat split; intros Hs%has_shape_length; revert Hs;
    [change (length lit_v) with 2%nat
    |change (length lit_youtu_be) with 9%nat
    |change (length lit_shorts) with 7%nat]; lia.
Qed.

Lemma extract_video_id_short_url_witness :
  extract_video_id (utf8 "v=abcdEFGH1") = None /\ extract_video_id [] = None.
Proof.
  split.
  - apply (extract_video_id_short_url (utf8 "v=abcdEFGH1")). vm_compute. lia.
  - apply (extract_video_id_short_url []). vm_compute. lia.
Defined.

(** X4: text around a URL never hides its identifier: when a text yields
    an identifier, so does every text that contains it. *)
Theorem extract_video_id_context (url a b : str) :
  extract_video_id url <> None -> extract_video_id (a ++ url ++ b) <> None.
Proof.
  intros Hsome Hnone. apply Hsome.
  apply extract_video_id_none in Hnone as (Hv & Hy & Hs).
  apply extract_video_id_none.
  repeat split; intros H%(has_shape_context _ _ a b); auto.
Qed.

Lemma extract_video_id_context_witness :
  extract_video_id (utf8 "see " ++ url_watch ++ utf8 " (new)") <> None.
Proof.
  apply (extract_video_id_context url_watch (utf8 "see ") (utf8 " (new)")).
  vm_compute. discriminate.
Defined.

(** ** [fetch_transcript]: which track, and what it lets through *)

(** X5: a Korean track always wins.  When the video has a human-authored
    Korean track, that track is the one fetched, whatever other tracks
    there are; when it has no human-authored Korean track but an
    auto-generated one, the auto-generated Korean track is fetched, even
    if human-authored tracks exist in the other languages. *)
Theorem fetch_transcript_korean_first (w : World) (video_id : str) (st : State)
    (tl : TranscriptList) (t : Transcript) :
  list_transcripts w video_id = Ok tl ->
  manually_created_transcripts tl !! utf8 "ko" = Some t
  \/ (manually_created_transcripts tl !! utf8 "ko" = None
      /\ generated_transcripts tl !! utf8 "ko" = Some t) ->
  fetch_transcript w video_id st =
    (st, [CallListTranscripts video_id; CallFetch t],
     match fetch t with
     | Ok parts => Return (transcript_text_of parts)
     | Raise e => Raised e
     end).
Proof.
  intros Hlist Hko.
  assert (picks tl preferred_languages t) as Hp.
  { destruct Hko as [Hm|[Hm Hg]];
      [apply picks_manual | apply picks_generated]; assumption. }
  apply find_in_dicts_picks in Hp.
  rewrite fetch_transcript_run, Hlist, select_transcript_run, Hp. reflexivity.
Qed.

Lemma fetch_transcript_korean_first_witness :
  fetch_transcript (world_of tl_manual_en_generated_ko) (utf8 "abcdEFGH12_") idle_state =
    (idle_state,
     [CallListTranscripts (utf8 "abcdEFGH12_"); CallFetch track_ko_generated],
     match fetch track_ko_generated with
     | Ok parts => Return (transcript_text_of parts)
     | Raise e => Raised e
     end).
Proof.
  apply (fetch_transcript_korean_first (world_of tl_manual_en_generated_ko)
           (utf8 "abcdEFGH12_") idle_state tl_manual_en_generated_ko
           track_ko_generated eq_refl).
  right. split; reflexivity.
Defined.

(** X6: [fetch_transcript] lets every failure of the two remote calls
    through as it is.  An exception of the listing, [NoTranscriptFound]
    included, is raised after that one call, without any lookup; an
    exception of the fetch of the chosen track is raised after the two
    calls, and no other track is tried. *)
Theorem fetch_transcript_failures (w : World) (video_id : str) (st : State) :
  (forall e, list_transcripts w video_id = Raise e ->
     fetch_transcript w video_id st = (st, [CallListTranscripts video_id], Raised e))
  /\ (forall tl t e, list_transcripts w video_id = Ok tl ->
        picks tl preferred_languages t -> fetch t = Raise e ->
        fetch_transcript w video_id st =
          (st, [CallListTranscripts video_id; CallFetch t], Raised e)).
Proof.
  split.
  - intros e Hlist. rewrite fetch_transcript_run, Hlist. reflexivity.
  - intros tl t e Hlist Hp%find_in_dicts_picks Hfetch.
    rewrite fetch_transcript_run, Hlist, select_transcript_run, Hp, Hfetch.
    reflexivity.
Qed.

(** ** [create_chat_completion]: the request *)

Lemma user_prompt_instruction (transcript_text : str) :
  user_prompt transcript_text = user_instruction ++ transcript_text.
Proof.
  unfold user_instruction, user_prompt. rewrite app_nil_r, <- !app_assoc. reflexivity.
Qed.

Lemma chat_request_user (key : option str) (transcript_text : str) :
  chat_user (chat_request key transcript_text) = user_instruction ++ transcript_text.
Proof.
  cbn [chat_user chat_request]. apply user_prompt_instruction.
Qed.

Lemma chat_request_transcript (key key' : option str) (t t' : str) :
  chat_request key' t' = chat_request key t -> t' = t.
Proof.
  intros Heq. apply (f_equal chat_user) in Heq.
  rewrite !chat_request_user in Heq. apply app_inv_head in Heq. exact Heq.
Qed.

(** X7: the chat call and what it carries.  With the older client
    ([openai] has [ChatCompletion]) the call goes to
    [ChatCompletion.create] and no client is built.  With the newer one
    the client is built first: when its constructor raises, that exception
    is raised and no chat call is made; otherwise the call goes to the
    client.  In no case is the session touched.  The user message of the
    request is the fixed instruction followed by the transcript as it is,
    so that the transcript can be read back from the request and two
    transcripts that differ never give the same request. *)
Theorem create_chat_completion_request (w : World) (transcript_text : str) (st : State) :
  (has_ChatCompletion w = true ->
   create_chat_completion w transcript_text st =
     (st, [CallChat true (chat_request (openai_api_key st) transcript_text)],
      outcome_of
        (ChatCompletion_create w (chat_request (openai_api_key st) transcript_text))))
  /\ (forall e, has_ChatCompletion w = false ->
        OpenAI w (openai_api_key st) = Raise e ->
        create_chat_completion w transcript_text st = (st, [], Raised e))
  /\ (has_ChatCompletion w = false ->
      OpenAI w (openai_api_key st) = Ok tt ->
      create_chat_completion w transcript_text st =
        (st, [CallChat false (chat_request (openai_api_key st) transcript_text)],
         outcome_of
           (client_chat_completions_create w
              (chat_request (openai_api_key st) transcript_text))))
  /\ drop (length user_instruction)
       (chat_user (chat_request (openai_api_key st) transcript_text))
     = transcript_text
  /\ (forall key other,
        chat_request key other = chat_request (openai_api_key st) transcript_text ->
        other = transcript_text).
Proof.
  rewrite create_chat_completion_run. unfold chat_trace, chat_answer, chat_call.
  split; [|split; [|split; [|split]]].
  - intros ->. reflexivity.
  - intros e -> ->. reflexivity.
  - intros -> ->. reflexivity.
  - rewrite chat_request_user. apply drop_app_length.
  - intros key other. apply chat_request_transcript.
Qed.

(** ** The runs of the script, case by case *)

Lemma app_run_reset (w : World) (inp : Inputs) (st : State) :
  reset inp = true ->
  app_run w inp st =
    ({| session_state := fresh_session; openai_api_key := openai_api_key st |},
     [StRerun], Rerun).
Proof.
  intros Hreset. unfold app_run. rewrite Hreset. reflexivity.
Qed.

Lemma app_run_idle (w : World) (inp : Inputs) (st : State) :
  reset inp = false -> brew inp = false ->
  app_run w inp st =
    (at_start inp st, shown (session_state st), display_result (session_state st)).
Proof.
  intros Hreset Hbrew. unfold app_run. rewrite Hreset, Hbrew.
  unfold bind, set_video_url, modify, ret, gets. rewrite display_run. reflexivity.
Qed.

Lemma app_run_rejected (w : World) (inp : Inputs) (st : State) :
  reset inp = false -> brew inp = true ->
  (str_empty (api_key inp) = true ->
   app_run w inp st =
     (at_start inp st, StError msg_need_key :: shown (session_state st),
      display_result (session_state st)))
  /\ (str_empty (api_key inp) = false -> str_empty (typed_url inp) = true ->
      app_run w inp st =
        (at_start inp st, StError msg_need_url :: shown (session_state st),
         display_result (session_state st)))
  /\ (str_empty (api_key inp) = false -> str_empty (typed_url inp) = false ->
      extract_video_id (typed_url inp) = None ->
      app_run w inp st =
        (at_brew inp st, StError msg_invalid_url :: shown (session_state st),
         display_result (session_state st))).
Proof.
  intros Hreset Hbrew. rewrite (app_run_brew w inp st Hreset Hbrew). unfold brew_block.
  repeat split.
  - intros ->. reflexivity.
  - intros -> ->. reflexivity.
  - intros -> -> ->. reflexivity.
Qed.

Lemma fetch_transcript_cases (w : World) (video_id : str) (st : State) :
  (exists e, list_transcripts w video_id = Raise e
     /\ fetch_transcript w video_id st = (st, [CallListTranscripts video_id], Raised e))
  \/ (exists tl, list_transcripts w video_id = Ok tl
        /\ no_track tl preferred_languages
        /\ fetch_transcript w video_id st =
           (st, [CallListTranscripts video_id],
            Raised (NoTranscriptFound (tl_video_id tl) generated_languages)))
  \/ (exists tl t, list_transcripts w video_id = Ok tl
        /\ picks tl preferred_languages t
        /\ fetch_transcript w video_id st =
           (st, [CallListTranscripts video_id; CallFetch t],
            match fetch t with
            | Ok parts => Return (transcript_text_of parts)
            | Raise e => Raised e
            end)).
Proof.
  rewrite fetch_transcript_run. unfold transcript_text_of.
  destruct (list_transcripts w video_id) as [tl|e]; [|left; eauto].
  right. rewrite select_transcript_run.
  destruct (find_in_dicts preferred_languages _) as [t|] eqn:E.
  - right. exists tl, t. apply find_in_dicts_picks in E. auto.
  - left. exists tl. apply find_in_dicts_no_track in E.
    rewrite (generated_fallback_fails tl E). auto.
Qed.

(** Every run is of one of the eleven kinds. *)
Lemma app_run_classified (w : World) (inp : Inputs) (st : State) :
  Run w inp st (app_run w inp st).
Proof.
  destruct (reset inp) eqn:Hreset.
  { rewrite (app_run_reset w inp st Hreset). apply run_reset, Hreset. }
  destruct (brew inp) eqn:Hbrew.
  2:{ rewrite (app_run_idle w inp st Hreset Hbrew). apply run_idle; assumption. }
  destruct (app_run_rejected w inp st Hreset Hbrew) as (Hk & Hu & Hi).
  destruct (str_empty (api_key inp)) eqn:Hkey.
  { rewrite (Hk eq_refl). apply run_no_key; assumption. }
  destruct (str_empty (typed_url inp)) eqn:Hurl.
  { rewrite (Hu eq_refl eq_refl). apply run_no_url; assumption. }
  destruct (extract_video_id (typed_url inp)) as [id|] eqn:Hid.
  2:{ rewrite (Hi eq_refl eq_refl eq_refl). apply run_no_id; assumption. }
  clear Hk Hu Hi.
  rewrite (app_run_pipeline w inp st id Hbrew Hreset Hkey Hid), pipeline_run.
  cbn [openai_api_key at_brew].
  change {| session_state :=
              {| script := script (session_state st);
                 audio := audio (session_state st);
                 video_url := typed_url inp |};
            openai_api_key := Some (api_key inp) |} with (at_brew inp st).
  destruct (fetch_transcript_cases w id (at_brew inp st))
    as [(e & Hl & ->)|[(tl & Hl & Hno & ->)|(tl & t & Hl & Hp & ->)]].
  - apply (run_list_failed w inp st id e); assumption.
  - apply (run_no_track w inp st id tl); assumption.
  - destruct (fetch t) as [parts|e] eqn:Hf.
    2:{ apply (run_fetch_failed w inp st id tl t e); assumption. }
    destruct (chat_answer w (Some (api_key inp)) (transcript_text_of parts))
      as [sc|e] eqn:Hc.
    2:{ rewrite <- !app_assoc.
        apply (run_chat_failed w inp st id tl t parts e); assumption. }
    rewrite (chat_answer_trace _ _ _ _ Hc).
    destruct (synthesis w (Some (api_key inp)) sc) as [a|e] eqn:Hs.
    + assert (speech_trace w (Some (api_key inp)) sc
              = [speech_call w (Some (api_key inp)) sc]) as ->.
      { unfold synthesis in Hs.
        destruct (speech_answer w (Some (api_key inp)) sc) as [resp|e'] eqn:Ha;
          [|discriminate].
        apply (speech_answer_trace _ _ _ _ Ha). }
      apply (run_done w inp st id tl t parts sc a); assumption.
    + rewrite <- !app_assoc.
      apply (run_speech_failed w inp st id tl t parts sc e); assumption.
Qed.

Lemma stages_shown (ss : SessionState) : stages (shown ss) = [].
Proof.
  unfold shown. destruct (script ss) as [[|c t]|]; destruct (audio ss) as [|[|b bs]|r c'];
    reflexivity.
Qed.

Lemma errors_shown (ss : SessionState) : errors (shown ss) = [].
Proof.
  unfold shown. destruct (script ss) as [[|c t]|]; destruct (audio ss) as [|[|b bs]|r c'];
    reflexivity.
Qed.

Lemma stages_cons_shown (l : list event) (ss : SessionState) :
  stages (l ++ shown ss) = stages l.
Proof.
  unfold stages. rewrite omap_app. fold (stages (shown ss)).
  rewrite stages_shown. apply app_nil_r.
Qed.

Lemma errors_cons_shown (l : list event) (ss : SessionState) :
  errors (l ++ shown ss) = errors l.
Proof.
  unfold errors. rewrite List.filter_app. fold (errors (shown ss)).
  rewrite errors_shown. apply app_nil_r.
Qed.

Lemma stages_app (l1 l2 : list event) : stages (l1 ++ l2) = stages l1 ++ stages l2.
Proof. unfold stages. apply omap_app. Qed.

Lemma errors_app (l1 l2 : list event) : errors (l1 ++ l2) = errors l1 ++ errors l2.
Proof. unfold errors. apply List.filter_app. Qed.

Lemma chat_trace_cases (w : World) (key : option str) (transcript_text : str) :
  chat_trace w key transcript_text = []
  \/ chat_trace w key transcript_text = [chat_call w key transcript_text].
Proof.
  unfold chat_trace. destruct (has_ChatCompletion w); [|destruct (OpenAI w key)]; auto.
Qed.

Lemma speech_trace_cases (w : World) (key : option str) (sc : option str) :
  speech_trace w key sc = [] \/ speech_trace w key sc = [speech_call w key sc].
Proof.
  unfold speech_trace. destruct (has_audio_speech w); [|destruct (OpenAI w key)]; auto.
Qed.


(** X9: the remote calls of a run are an initial part of the sequence
    listing, fetch, chat, speech: no stage is called twice, skipped or
    called out of turn. *)
Theorem app_run_stage_order (w : World) (inp : Inputs) (st : State) :
  exists n, stages (snd (fst (app_run w inp st))) = take n pipeline_order.
Proof.
  destruct (app_run_classified w inp st); cbn [fst snd];
    try change (StError ?m :: shown ?ss) with ([StError m] ++ shown ss);
    repeat rewrite ?stages_app, ?stages_shown;
    try (destruct (chat_trace_cases w (Some (api_key inp)) (transcript_text_of parts))
           as [-> | ->]);
    try (destruct (speech_trace_cases w (Some (api_key inp)) sc) as [-> | ->]);
    cbn [stages omap list_omap stage_of chat_call speech_call List.app];
    first [ exists 0%nat; reflexivity | exists 1%nat; reflexivity
          | exists 2%nat; reflexivity | exists 3%nat; reflexivity
          | exists 4%nat; reflexivity ].
Qed.

(** X10: what an error leaves alone.  In a run without Re-brew there is
    at most one [st.error]; when there is one, the audio of the session is
    the one it held before; the script of the session changes only in a
    run that called the chat service; and the audio changes only in a run
    that made all four calls and reported no error. *)
Theorem app_run_error_keeps_audio (w : World) (inp : Inputs) (st : State) :
  reset inp = false ->
  (length (errors (snd (fst (app_run w inp st)))) <= 1)%nat
  /\ (errors (snd (fst (app_run w inp st))) <> [] ->
      audio (session_state (fst (fst (app_run w inp st)))) = audio (session_state st))
  /\ (script (session_state (fst (fst (app_run w inp st)))) <> script (session_state st) ->
      In ChatStage (stages (snd (fst (app_run w inp st)))))
  /\ (audio (session_state (fst (fst (app_run w inp st)))) <> audio (session_state st) ->
      stages (snd (fst (app_run w inp st))) = pipeline_order
      /\ errors (snd (fst (app_run w inp st))) = []).
Proof.
  intros Hreset.
  destruct (app_run_classified w inp st); try congruence; cbn [fst snd];
    try change (StError ?m :: shown ?ss) with ([StError m] ++ shown ss);
    repeat rewrite ?stages_app, ?errors_app, ?stages_shown, ?errors_shown;
    try (destruct (chat_trace_cases w (Some (api_key inp)) (transcript_text_of parts))
           as [-> | ->]);
    try (destruct (speech_trace_cases w (Some (api_key inp)) sc) as [-> | ->]);
    cbn [session_state script audio at_start at_brew with_script with_audio
         stages errors omap list_omap stage_of List.filter is_error
         chat_call speech_call length List.app];
    (split; [lia|]);
    (split; [intros He; solve [reflexivity | exfalso; apply He; reflexivity]|]);
    (split; [intros Hs; solve [exfalso; apply Hs; reflexivity
                              | cbn [In]; tauto]|]);
    intros Ha; solve [exfalso; apply Ha; reflexivity | split; reflexivity].
Qed.

Lemma app_run_error_keeps_audio_witness :
  (length (errors (snd (fst (app_run (world_speech_down tl_manual_en) brew_inputs
                                idle_state)))) <= 1)%nat.
Proof.
  destruct (app_run_error_keeps_audio (world_speech_down tl_manual_en) brew_inputs
              idle_state eq_refl) as (Hone & _).
  exact Hone.
Defined.

(** X11: the key.  After a run without Re-brew, [openai.api_key] holds
    the typed key exactly when Brew was pressed with a key and a URL that
    are both non-empty, whether or not the URL then yields an identifier
    and whatever becomes of the pipeline; otherwise it is what it was.
    Re-brew leaves it as it was. *)
Theorem app_run_api_key (w : World) (inp : Inputs) (st : State) :
  openai_api_key (fst (fst (app_run w inp st))) =
  if negb (reset inp) && brew inp && negb (str_empty (api_key inp))
     && negb (str_empty (typed_url inp))
  then Some (api_key inp)
  else openai_api_key st.
Proof.
  destruct (app_run_classified w inp st); cbn [fst];
    repeat match goal with
           | H : extract_video_id _ = Some _ |- _ =>
               apply extract_video_id_url_nonempty in H
           | H : _ = true |- _ => rewrite H
           | H : _ = false |- _ => rewrite H
           end;
    reflexivity.
Qed.

Lemma interact_idle (w : World) (inp : Inputs) (st : State) :
  idle inp = true ->
  interact w inp st =
    (at_start inp st, shown (session_state st), display_result (session_state st)).
Proof.
  unfold idle. intros [Hb Hr]%andb_true_iff.
  apply negb_true_iff in Hb, Hr.
  unfold interact. rewrite (app_run_idle w inp st Hr Hb).
  unfold display_result. destruct (audio (session_state st)); reflexivity.
Qed.

(** X12: reruns without a button are free.  However many times the
    script reruns with no button pressed, and whatever is typed meanwhile,
    no remote call is made and no error is shown, and the script, the
    audio and the stored key stay what they were. *)
Theorem interactions_idle (w : World) (inps : list Inputs) (st : State) :
  forallb idle inps = true ->
  stages (snd (interactions w inps st)) = []
  /\ errors (snd (interactions w inps st)) = []
  /\ script (session_state (fst (interactions w inps st))) = script (session_state st)
  /\ audio (session_state (fst (interactions w inps st))) = audio (session_state st)
  /\ openai_api_key (fst (interactions w inps st)) = openai_api_key st.
Proof.
  revert st. induction inps as [|inp inps IH]; intros st Hall.
  - repeat split.
  - simpl in Hall. apply andb_true_iff in Hall as [Hidle Hall].
    cbn [interactions]. rewrite (interact_idle w inp st Hidle).
    specialize (IH (at_start inp st) Hall).
    destruct (interactions w inps (at_start inp st)) as [st2 tr2].
    cbn [fst snd] in *. destruct IH as (Hs & He & Hsc & Ha & Hk).
    unfold stages, errors in *. rewrite omap_app, List.filter_app.
    fold (stages (shown (session_state st))). fold (errors (shown (session_state st))).
    rewrite stages_shown, errors_shown. cbn [List.app].
    repeat split; assumption.
Qed.

Lemma interactions_idle_witness :
  stages (snd (interactions (world_of tl_manual_en)
                 [ {| api_key := utf8 "sk"; typed_url := utf8 "https://";
                      brew := false; reset := false |};
                   {| api_key := utf8 "sk-test"; typed_url := url_watch;
                      brew := false; reset := false |} ]
                 idle_state)) = [].
Proof.
  destruct (interactions_idle (world_of tl_manual_en)
              [ {| api_key := utf8 "sk"; typed_url := utf8 "https://";
                   brew := false; reset := false |};
                {| api_key := utf8 "sk-test"; typed_url := url_watch;
                   brew := false; reset := false |} ]
              idle_state eq_refl) as (Hstages & _).
  exact Hstages.
Defined.
